(** * The persistent record store of the DHT, and the hole-punch veto

    A shallow embedding of the [Persistent] class (lib/persistent.js): the
    handlers that a DHT node runs on LOOKUP, FIND_PEER, ANNOUNCE,
    UNANNOUNCE, MUTABLE_GET, MUTABLE_PUT, IMMUTABLE_GET and IMMUTABLE_PUT
    requests, over the four caches of the store and the Router table of the
    node.

    Every handler is a function from the state of the node and a request to
    the new state and what the handler did with the request: nothing, a
    reply, a typed error, or an exception.

    The libraries the class calls (sodium, compact-encoding, the message
    codecs of ./messages, the name spaces of ./constants) are interfaces
    here: type classes whose members the handlers call, so that every
    theorem holds for any hash function, any signature scheme and any
    codec.

    The second part is a transition system for one connection attempt,
    with the hooks that let either side veto the hole punch. *)

From stdpp Require Import gmap strings list.
From Stdlib.Strings Require Import Byte.
From Stdlib Require Import NArith Ascii.


(** ** Buffers and their hex form *)

Abbreviation Buffer := (list byte).

#[global] Instance byte_eq_decision : EqDecision byte := byte_eq_dec.

#[global] Program Instance byte_countable : Countable byte :=
  inj_countable Byte.to_N Byte.of_N _.
Next Obligation. exact Byte.of_to_N. Qed.

(** [EMPTY = Buffer.alloc(0)] *)
Definition EMPTY : Buffer := [].

(** [buf.subarray(from, to)] *)
Definition subarray (from to : nat) (b : Buffer) : Buffer :=
  take (to - from) (drop from b).

Module Hex.

(** One hexadecimal digit, lower case as Node prints it. *)
Definition digit (n : N) : ascii :=
  match n with
  | 0 => "0" | 1 => "1" | 2 => "2" | 3 => "3" | 4 => "4" | 5 => "5"
  | 6 => "6" | 7 => "7" | 8 => "8" | 9 => "9" | 10 => "a" | 11 => "b"
  | 12 => "c" | 13 => "d" | 14 => "e" | _ => "f"
  end%N%char.

Definition undigit (c : ascii) : option N :=
  let n := N_of_ascii c in
  (if (48 <=? n) && (n <=? 57) then Some (n - 48)
   else if (97 <=? n) && (n <=? 102) then Some (n - 87)
   else None)%N.

Definition of_byte (b : byte) : ascii * ascii :=
  let n := Byte.to_N b in (digit (n / 16)%N, digit (n mod 16)%N).

Definition to_byte (hi lo : ascii) : option byte :=
  match undigit hi, undigit lo with
  | Some h, Some l => Byte.of_N (16 * h + l)%N
  | _, _ => None
  end.

(** [buf.toString('hex')] *)
Fixpoint encode (b : Buffer) : string :=
  match b with
  | [] => EmptyString
  | x :: b' => let '(hi, lo) := of_byte x in String hi (String lo (encode b'))
  end.

(** [Buffer.from(s, 'hex')], on the strings [encode] produces. *)
Fixpoint decode (s : string) : option Buffer :=
  match s with
  | EmptyString => Some []
  | String hi (String lo s') =>
      match to_byte hi lo, decode s' with
      | Some x, Some b => Some (x :: b)
      | _, _ => None
      end
  | String _ EmptyString => None
  end.

End Hex.

Abbreviation hex := Hex.encode.

(** ** Wire data: the records of ./messages *)

(** An IPv4 address and a port, as in [relayAddresses] and in [req.from]. *)
Record Address := { host : string; port : N }.

(** [m.peer] *)
Record Peer := { publicKey : Buffer; relayAddresses : list Address }.

(** [m.announce]: each field is a value or [null]. *)
Record Announce := {
  peer : option Peer;
  refresh : option Buffer;
  signature : option Buffer
}.

(** [m.mutablePutRequest]; an empty [value] decodes to [null]. *)
Record MutablePutRequest := {
  put_publicKey : Buffer;
  put_seq : N;
  put_value : option Buffer;
  put_signature : Buffer
}.

(** [m.mutableGetResponse], the record kept in [mutables]. *)
Record MutableGetResponse := {
  get_seq : N;
  get_value : Buffer;
  get_signature : Buffer
}.

(** [ERROR] of ./constants, as far as the store uses it. *)
Inductive ERROR := SEQ_REUSED | SEQ_TOO_LOW.

#[global] Instance Address_eq_dec : EqDecision Address.
Proof. solve_decision. Defined.
#[global] Instance Peer_eq_dec : EqDecision Peer.
Proof. solve_decision. Defined.
#[global] Instance ERROR_eq_dec : EqDecision ERROR.
Proof. solve_decision. Defined.

(** ** The libraries, as interfaces *)

(** sodium-universal. The functions of the library write their result into
    an output buffer ([TMP], [hash], [signable]); here they return it. The
    optional last argument of [crypto_generichash] is the key (a name space
    of ./constants). *)
Class Sodium := {
  crypto_generichash : Buffer → option Buffer → Buffer;
  crypto_generichash_batch : list Buffer → option Buffer → Buffer;
  crypto_sign_verify_detached : Buffer → Buffer → Buffer → bool
}.

(** compact-encoding with the codecs of ./messages, and [NS] of
    ./constants. A decoder gives [None] where [c.decode] throws. Two calls
    of the store hand [c.encode] something else than the record its codec
    is written for: [annSignable] encodes [ann.peer] also when it is [null],
    and [onmutableput] encodes the stored Buffer [local] with
    [m.mutableGetResponse]; what [c.encode] does there ([None]: it throws)
    is a member of its own. *)
Class Messages := {
  NS_ANNOUNCE : Buffer;
  NS_UNANNOUNCE : Buffer;
  NS_MUTABLE_PUT : Buffer;
  decode_announce : Buffer → option Announce;
  encode_peer : Peer → Buffer;
  encode_peer_null : option Buffer;
  decode_mutablePutRequest : Buffer → option MutablePutRequest;
  encode_mutableGetResponse : MutableGetResponse → Buffer;
  encode_mutableGetResponse_Buffer : Buffer → option Buffer;
  encode_mutableSignable : N → Buffer → Buffer;
  decode_uint : Buffer → option N;
  encode_rawArray : list Buffer → Buffer
}.

(** record-cache returns at most [n] of the values stored under a name,
    chosen by the library. *)
Class Sampler := {
  pick : nat → list Buffer → list Buffer;
  pick_length n l : (length (pick n l) ≤ n)%nat;
  pick_elem n l x : x ∈ pick n l → x ∈ l;
  pick_all n l : (length l ≤ n)%nat → pick n l ≡ₚ l
}.

(** ** The caches *)

(** record-cache: under each name a set of records, one per key; [add] on a
    key that is there replaces its value. Expiry by [maxSize] and [maxAge]
    is the library's and is left out: a cache is what it holds. *)
Module RecordCache.

Abbreviation t := (gmap string (gmap Buffer Buffer)).

Definition entries (c : t) (name : string) : gmap Buffer Buffer :=
  default ∅ (c !! name).

Definition lookup (c : t) (name : string) (key : Buffer) : option Buffer :=
  entries c name !! key.

Definition add (name : string) (key value : Buffer) (c : t) : t :=
  <[name := <[key := value]> (entries c name)]> c.

Definition remove (name : string) (key : Buffer) (c : t) : t :=
  alter (delete key) name c.

Definition values (c : t) (name : string) : list Buffer :=
  (map_to_list (entries c name)).*2.

Definition get `{Sampler} (c : t) (name : string) (n : nat) : list Buffer :=
  pick n (values c name).

End RecordCache.

(** What the Router holds for a target. The hooks are callbacks of a local
    Server; the store installs entries without hooks. *)
Record Forward := {
  relay : Address;
  record : Buffer;
  onconnect : option nat;
  onholepunch : option nat
}.

#[global] Instance Forward_eq_dec : EqDecision Forward.
Proof. solve_decision. Defined.

(** Modelled from the spec: the Router table of the node ([dht._router],
    lib/router.js), which maps each locally announced target to its entry.
    The store names a target by its hex string ([set], [delete], and [get]
    in [onlookup]) and by the Buffer itself ([get] in [onfindpeer]); both
    name the same target. *)
Module Router.

Inductive key := Str (k : string) | Buf (b : Buffer).

Definition toString (target : key) : string :=
  match target with Str k => k | Buf b => hex b end.

Abbreviation t := (gmap string Forward).

(** Modelled from the spec: [get], [set] and [delete] of the Router, on a
    target given as its hex string or as the Buffer. *)
Definition get (r : t) (target : key) : option Forward := r !! toString target.
Definition set (target : key) (state : Forward) (r : t) : t :=
  <[toString target := state]> r.
Definition delete (target : key) (r : t) : t := base.delete (toString target) r.

End Router.

(** An entry of [refreshes]. *)
Record Refresh := { k : string; refresh_record : Buffer; announceSelf : bool }.

(** The node as the store sees it: its id and its Router. *)
Record DHT := { id : Buffer; _router : Router.t }.

(** The state of [Persistent], with the node it belongs to. xache caches
    are maps from hex strings; expiry is left out as for [RecordCache]. *)
Record Persistent := {
  dht : DHT;
  records : RecordCache.t;
  refreshes : gmap string Refresh;
  mutables : gmap string Buffer;
  immutables : gmap string Buffer
}.

(** ** Requests and what a handler does with them *)

Record Request := {
  req_target : option Buffer;
  req_token : option Buffer;
  req_value : option Buffer;
  req_from : Address
}.

(** The second argument of [req.reply]. *)
Record ReplyOpts := { opt_token : bool; opt_closerNodes : bool }.

Inductive Outcome :=
| Dropped                                  (* returned, nothing sent *)
| Replied (value : option Buffer) (opts : option ReplyOpts) (* req.reply *)
| Errored (code : ERROR)                   (* req.error *)
| Thrown.                                  (* an exception left the handler *)

#[global] Instance ReplyOpts_eq_dec : EqDecision ReplyOpts.
Proof. solve_decision. Defined.
#[global] Instance Outcome_eq_dec : EqDecision Outcome.
Proof. solve_decision. Defined.

Definition set_router (r : Router.t) (s : Persistent) : Persistent :=
  {| dht := {| id := id (dht s); _router := r |}; records := records s;
     refreshes := refreshes s; mutables := mutables s;
     immutables := immutables s |}.
Definition set_records (c : RecordCache.t) (s : Persistent) : Persistent :=
  {| dht := dht s; records := c; refreshes := refreshes s;
     mutables := mutables s; immutables := immutables s |}.
Definition set_refreshes (c : gmap string Refresh) (s : Persistent) : Persistent :=
  {| dht := dht s; records := records s; refreshes := c;
     mutables := mutables s; immutables := immutables s |}.
Definition set_mutables (c : gmap string Buffer) (s : Persistent) : Persistent :=
  {| dht := dht s; records := records s; refreshes := refreshes s;
     mutables := c; immutables := immutables s |}.
Definition set_immutables (c : gmap string Buffer) (s : Persistent) : Persistent :=
  {| dht := dht s; records := records s; refreshes := refreshes s;
     mutables := mutables s; immutables := c |}.

(** ** The handlers of [Persistent] *)

Section Handlers.
Context `{Sodium, Messages, Sampler}.

(** [{ token: false, closerNodes: false }] *)
Definition bare : option ReplyOpts :=
  Some {| opt_token := false; opt_closerNodes := false |}.

(** [decode (enc, val)]: [val && c.decode(enc, val)], and [null] when the
    decoder throws. *)
Definition decode {A} (enc : Buffer → option A) (val : option Buffer) : option A :=
  match val with
  | Some v => enc v
  | None => None
  end.

Definition verifyMutable (signature : Buffer) (seq : N) (value publicKey : Buffer) : bool :=
  let signable :=
    crypto_generichash (encode_mutableSignable seq value) (Some NS_MUTABLE_PUT) in
  crypto_sign_verify_detached signature signable publicKey.

(** [annSignable]; [None] when [c.encode(m.peer, ann.peer)] throws. *)
Definition annSignable (target token id : Buffer) (ann : Announce) (ns : Buffer)
  : option Buffer :=
  match (match peer ann with
         | Some p => Some (encode_peer p)
         | None => encode_peer_null
         end) with
  | Some encoded =>
      Some (crypto_generichash_batch
              [target; id; token; encoded; default EMPTY (refresh ann)]
              (Some ns))
  | None => None
  end.

Definition onlookup (s : Persistent) (req : Request) : Persistent * Outcome :=
  match req_target req with
  | None => (s, Dropped)
  | Some target =>
      let k := hex target in
      let records := RecordCache.get (records s) k 20 in
      let fwd := Router.get (_router (dht s)) (Router.Str k) in
      let records :=
        match fwd with
        | Some fwd =>
            if bool_decide (length records < 20)%nat
            then records ++ [record fwd] else records
        | None => records
        end in
      (s, Replied (if bool_decide (length records = 0%nat) then None
                   else Some (encode_rawArray records)) None)
  end.

Definition onfindpeer (s : Persistent) (req : Request) : Persistent * Outcome :=
  match req_target req with
  | None => (s, Dropped)
  | Some target =>
      let fwd := Router.get (_router (dht s)) (Router.Buf target) in
      (s, Replied (match fwd with Some fwd => Some (record fwd) | None => None end)
                  None)
  end.

Definition unannounce (s : Persistent) (target publicKey : Buffer) : Persistent :=
  let k := hex target in
  let TMP := crypto_generichash publicKey None in
  let s :=
    if bool_decide (TMP = target)
    then set_router (Router.delete (Router.Str k) (_router (dht s))) s
    else s in
  set_records (RecordCache.remove k publicKey (records s)) s.

Definition onunannounce (s : Persistent) (req : Request) : Persistent * Outcome :=
  match req_target req, req_token req with
  | Some target, Some token =>
      match decode decode_announce (req_value req) with
      | None => (s, Dropped)
      | Some unann =>
          match peer unann, signature unann with
          | Some p, Some sig =>
              match annSignable target token (id (dht s)) unann NS_UNANNOUNCE with
              | None => (s, Thrown)
              | Some signable =>
                  if negb (crypto_sign_verify_detached sig signable (publicKey p))
                  then (s, Dropped)
                  else (unannounce s target (publicKey p), Replied None bare)
              end
          | _, _ => (s, Dropped)
          end
      end
  | _, _ => (s, Dropped)
  end.

Definition _onrefresh (s : Persistent) (token : Buffer) (req : Request)
  : Persistent * Outcome :=
  let TMP := crypto_generichash token None in
  let activeRefresh := hex TMP in
  match refreshes s !! activeRefresh with
  | None => (s, Dropped)
  | Some r =>
      let record := refresh_record r in
      let publicKey := subarray 0 32 record in
      let s :=
        if announceSelf r
        then
          let s := set_router
                     (Router.set (Router.Str (k r))
                        {| relay := req_from req; record := record;
                           onconnect := None; onholepunch := None |}
                        (_router (dht s))) s in
          set_records (RecordCache.remove (k r) publicKey (records s)) s
        else set_records (RecordCache.add (k r) publicKey record (records s)) s in
      let s := set_refreshes (delete activeRefresh (refreshes s)) s in
      let s := set_refreshes (<[hex token := r]> (refreshes s)) s in
      (s, Replied None bare)
  end.

(** [peer.relayAddresses = peer.relayAddresses.slice(0, 3)] when there are
    more than three. *)
Definition truncate (p : Peer) : Peer :=
  if bool_decide (3 < length (relayAddresses p))%nat
  then {| publicKey := publicKey p; relayAddresses := take 3 (relayAddresses p) |}
  else p.

Definition onannounce (s : Persistent) (req : Request) : Persistent * Outcome :=
  match req_target req, req_token req with
  | Some target, Some token =>
      match decode decode_announce (req_value req) with
      | None => (s, Dropped)
      | Some ann =>
          match annSignable target token (id (dht s)) ann NS_ANNOUNCE with
          | None => (s, Thrown)
          | Some signable =>
              match peer ann with
              | None =>
                  match refresh ann with
                  | None => (s, Dropped)
                  | Some refresh => _onrefresh s refresh req
                  end
              | Some p =>
                  if negb (match signature ann with
                           | Some sig =>
                               crypto_sign_verify_detached sig signable (publicKey p)
                           | None => false
                           end)
                  then (s, Dropped)
                  else
                    let p := truncate p in
                    let TMP := crypto_generichash (publicKey p) None in
                    let k := hex target in
                    let announceSelf := bool_decide (TMP = target) in
                    let record := encode_peer p in
                    let s :=
                      if announceSelf
                      then
                        let s := set_router
                                   (Router.set (Router.Str k)
                                      {| relay := req_from req; record := record;
                                         onconnect := None; onholepunch := None |}
                                      (_router (dht s))) s in
                        set_records
                          (RecordCache.remove k (publicKey p) (records s)) s
                      else
                        set_records
                          (RecordCache.add k (publicKey p) record (records s)) s in
                    let s :=
                      match refresh ann with
                      | Some refresh =>
                          set_refreshes
                            (<[hex refresh :=
                                 {| k := k; refresh_record := record;
                                    announceSelf := announceSelf |}]>
                               (refreshes s)) s
                      | None => s
                      end in
                    (s, Replied None bare)
              end
          end
      end
  | _, _ => (s, Dropped)
  end.

Definition onmutableget (s : Persistent) (req : Request) : Persistent * Outcome :=
  match req_target req, req_value req with
  | Some target, Some v =>
      match decode_uint v with
      | None => (s, Dropped)
      | Some seq =>
          let k := hex target in
          match mutables s !! k with
          | None => (s, Replied None None)
          | Some value =>
              match decode_uint value with
              | None => (s, Thrown)
              | Some localSeq =>
                  (s, Replied (if (localSeq <? seq)%N then None else Some value) None)
              end
          end
      end
  | _, _ => (s, Dropped)
  end.

(** [existing.seq] and [existing.value] in [onmutableput]: [existing] is
    the Buffer that [c.encode] returned, which has neither property, so
    that each read gives [undefined]. *)
Definition Buffer_seq (existing : Buffer) : option N := None.
Definition Buffer_value (existing : Buffer) : option Buffer := None.

(** [existing.value && existing.seq === seq &&
     Buffer.compare(value, existing.value) !== 0] *)
Definition seq_reused (existing : Buffer) (seq : N) (value : Buffer) : bool :=
  match Buffer_value existing with
  | Some existing_value =>
      bool_decide (Buffer_seq existing = Some seq)
      && negb (bool_decide (value = existing_value))
  | None => false
  end.

(** [seq < existing.seq]; a comparison with [undefined] is false. *)
Definition seq_too_low (existing : Buffer) (seq : N) : bool :=
  match Buffer_seq existing with
  | Some existing_seq => (seq <? existing_seq)%N
  | None => false
  end.

Definition onmutableput (s : Persistent) (req : Request) : Persistent * Outcome :=
  match req_target req, req_token req, req_value req with
  | Some target, Some _, Some _ =>
      match decode decode_mutablePutRequest (req_value req) with
      | None => (s, Dropped)
      | Some p =>
          let hash := crypto_generichash (put_publicKey p) None in
          if negb (bool_decide (hash = target)) then (s, Dropped)
          else
            match put_value p with
            | None => (s, Dropped)
            | Some value =>
                if negb (verifyMutable (put_signature p) (put_seq p) value
                           (put_publicKey p))
                then (s, Dropped)
                else
                  let k := hex hash in
                  let store :=
                    (set_mutables
                       (<[k := encode_mutableGetResponse
                                 {| get_seq := put_seq p; get_value := value;
                                    get_signature := put_signature p |}]>
                          (mutables s)) s,
                     Replied None None) in
                  match mutables s !! k with
                  | Some local =>
                      match encode_mutableGetResponse_Buffer local with
                      | None => (s, Thrown)
                      | Some existing =>
                          if seq_reused existing (put_seq p) value
                          then (s, Errored SEQ_REUSED)
                          else if seq_too_low existing (put_seq p)
                          then (s, Errored SEQ_TOO_LOW)
                          else store
                      end
                  | None => store
                  end
            end
      end
  | _, _, _ => (s, Dropped)
  end.

Definition onimmutableget (s : Persistent) (req : Request) : Persistent * Outcome :=
  match req_target req with
  | None => (s, Dropped)
  | Some target =>
      let k := hex target in
      (s, Replied (immutables s !! k) None)
  end.

Definition onimmutableput (s : Persistent) (req : Request) : Persistent * Outcome :=
  match req_target req, req_token req, req_value req with
  | Some target, Some _, Some value =>
      let hash := crypto_generichash value None in
      if negb (bool_decide (hash = target)) then (s, Dropped)
      else
        let k := hex hash in
        (set_immutables (<[k := value]> (immutables s)) s, Replied None None)
  | _, _, _ => (s, Dropped)
  end.

End Handlers.

(** ** Notions for the statements about the handlers *)

Section Notions.
Context `{Sodium, Messages, Sampler}.

(** Whether the signature of an announce is there and verifies under the
    key of its peer, over the signable of [annSignable]. *)
Definition verifies (s : Persistent) (target token : Buffer) (ann : Announce)
    (p : Peer) (ns : Buffer) : bool :=
  match signature ann with
  | Some sig =>
      crypto_sign_verify_detached sig
        (crypto_generichash_batch
           [target; id (dht s); token; encode_peer p; default EMPTY (refresh ann)]
           (Some ns))
        (publicKey p)
  | None => false
  end.

(** The entry the store installs in the Router. *)
Definition forward (req : Request) (record : Buffer) : Forward :=
  {| relay := req_from req; record := record;
     onconnect := None; onholepunch := None |}.

(** What [onmutableput] stores for a request. *)
Definition stored_put (p : MutablePutRequest) (value : Buffer) : Buffer :=
  encode_mutableGetResponse
    {| get_seq := put_seq p; get_value := value;
       get_signature := put_signature p |}.

(** The store after [onannounce] took an announce that carries a peer and
    a signature that verifies. *)
Definition announced (s : Persistent) (req : Request) (target : Buffer)
    (ann : Announce) (p : Peer) : Persistent :=
  let stored := truncate p in
  let record := encode_peer stored in
  let key := hex target in
  let self := bool_decide (crypto_generichash (publicKey stored) None = target) in
  let s1 :=
    if self
    then set_records (RecordCache.remove key (publicKey stored) (records s))
           (set_router
              (Router.set (Router.Str key) (forward req record) (_router (dht s)))
              s)
    else set_records
           (RecordCache.add key (publicKey stored) record (records s)) s in
  match refresh ann with
  | Some r =>
      set_refreshes
        (<[hex r := {| k := key; refresh_record := record; announceSelf := self |}]>
           (refreshes s1)) s1
  | None => s1
  end.

(** The commands the handlers are registered for, and the handler of each.
    A refresh arrives as an ANNOUNCE. *)
Inductive Command :=
| LOOKUP | FIND_PEER | ANNOUNCE | UNANNOUNCE
| MUTABLE_GET | MUTABLE_PUT | IMMUTABLE_GET | IMMUTABLE_PUT.

Definition onrequest (c : Command) : Persistent → Request → Persistent * Outcome :=
  match c with
  | LOOKUP => onlookup
  | FIND_PEER => onfindpeer
  | ANNOUNCE => onannounce
  | UNANNOUNCE => onunannounce
  | MUTABLE_GET => onmutableget
  | MUTABLE_PUT => onmutableput
  | IMMUTABLE_GET => onimmutableget
  | IMMUTABLE_PUT => onimmutableput
  end.

(** The handlers that ask for a token, and those that ask for a value. *)
Definition wants_token (c : Command) : bool :=
  match c with
  | ANNOUNCE | UNANNOUNCE | MUTABLE_PUT | IMMUTABLE_PUT => true
  | _ => false
  end.

Definition wants_value (c : Command) : bool :=
  match c with
  | ANNOUNCE | UNANNOUNCE | MUTABLE_GET | MUTABLE_PUT | IMMUTABLE_PUT => true
  | _ => false
  end.

(** The ways a request fails the validation of a handler: a missing target
    or token (or value), a payload that does not parse, a signature that is
    missing or does not verify, a target that is not the hash it has to
    be. *)
Inductive ValidationFailure (s : Persistent) (req : Request) : Command → Prop :=
| missing_target c :
    req_target req = None → ValidationFailure s req c
| missing_token c :
    wants_token c = true → req_token req = None → ValidationFailure s req c
| missing_value c :
    wants_value c = true → req_value req = None → ValidationFailure s req c
| unparseable_announce c v :
    c = ANNOUNCE ∨ c = UNANNOUNCE →
    req_value req = Some v → decode_announce v = None →
    ValidationFailure s req c
| unparseable_seq v :
    req_value req = Some v → decode_uint v = None →
    ValidationFailure s req MUTABLE_GET
| unparseable_put v :
    req_value req = Some v → decode_mutablePutRequest v = None →
    ValidationFailure s req MUTABLE_PUT
| bad_signature_announce target token v ann p :
    req_target req = Some target → req_token req = Some token →
    req_value req = Some v → decode_announce v = Some ann →
    peer ann = Some p →
    verifies s target token ann p NS_ANNOUNCE = false →
    ValidationFailure s req ANNOUNCE
| bad_signature_unannounce target token v unann p :
    req_target req = Some target → req_token req = Some token →
    req_value req = Some v → decode_announce v = Some unann →
    peer unann = Some p →
    verifies s target token unann p NS_UNANNOUNCE = false →
    ValidationFailure s req UNANNOUNCE
| bad_signature_put v p value :
    req_value req = Some v → decode_mutablePutRequest v = Some p →
    put_value p = Some value →
    verifyMutable (put_signature p) (put_seq p) value (put_publicKey p) = false →
    ValidationFailure s req MUTABLE_PUT
| wrong_hash_mutable target v p :
    req_target req = Some target →
    req_value req = Some v → decode_mutablePutRequest v = Some p →
    crypto_generichash (put_publicKey p) None ≠ target →
    ValidationFailure s req MUTABLE_PUT
| wrong_hash_immutable target value :
    req_target req = Some target → req_value req = Some value →
    crypto_generichash value None ≠ target →
    ValidationFailure s req IMMUTABLE_PUT.

End Notions.

(** A signature scheme that differs from another only in what it accepts. *)
Definition with_verify (S : Sodium) (verify : Buffer → Buffer → Buffer → bool)
  : Sodium :=
  {| crypto_generichash := @crypto_generichash S;
     crypto_generichash_batch := @crypto_generichash_batch S;
     crypto_sign_verify_detached := verify |}.

(** ** Signing

    The static methods of [Persistent] that make the signatures the
    handlers verify. [crypto_sign_detached] writes the signature of a
    message under a secret key; a signature verifies under the public key
    of the secret key it was made with. *)
Class Signer `{Sodium} := {
  crypto_sign_detached : Buffer → Buffer → Buffer;
  crypto_sign_ed25519_sk_to_pk : Buffer → Buffer;
  sign_verify_detached message secretKey :
    crypto_sign_verify_detached (crypto_sign_detached message secretKey) message
      (crypto_sign_ed25519_sk_to_pk secretKey) = true
}.

Section Signing.
Context `{Signer, Messages}.

Definition signMutable (seq : N) (value secretKey : Buffer) : Buffer :=
  let signable :=
    crypto_generichash (encode_mutableSignable seq value) (Some NS_MUTABLE_PUT) in
  crypto_sign_detached signable secretKey.

(** [None] when [annSignable] throws. *)
Definition signAnnounce (target token id : Buffer) (ann : Announce)
    (secretKey : Buffer) : option Buffer :=
  match annSignable target token id ann NS_ANNOUNCE with
  | Some signable => Some (crypto_sign_detached signable secretKey)
  | None => None
  end.

Definition signUnannounce (target token id : Buffer) (ann : Announce)
    (secretKey : Buffer) : option Buffer :=
  match annSignable target token id ann NS_UNANNOUNCE with
  | Some signable => Some (crypto_sign_detached signable secretKey)
  | None => None
  end.

End Signing.

(** [new Persistent (dht, { maxSize, maxAge })]: four caches that hold
    nothing. *)
Definition constructor (dht : DHT) : Persistent :=
  {| dht := dht; records := ∅; refreshes := ∅; mutables := ∅; immutables := ∅ |}.

(** The Router and the LRU keep apart: no record of the LRU is under the
    hash of its own key (such a record belongs in the Router), and no entry
    of [refreshes] that is not marked [announceSelf] would put one there. *)
Definition separated `{Sodium} (s : Persistent) : Prop :=
  (∀ name publicKey record,
     RecordCache.lookup (records s) name publicKey = Some record →
     name ≠ hex (crypto_generichash publicKey None))
  ∧ (∀ slot r,
       refreshes s !! slot = Some r →
       announceSelf r = false →
       k r ≠ hex (crypto_generichash (subarray 0 32 (refresh_record r)) None)).

(** ** A small instance of the interfaces

    A hash, a signature scheme and a codec small enough to run the
    handlers on concrete requests. Nothing below the examples depends on
    their particular choice. *)
Module Toy.

Definition byte_of_nat (n : nat) : byte := default x00 (Byte.of_N (N.of_nat n)).
Definition nat_of_byte (b : byte) : nat := N.to_nat (Byte.to_N b).

(** The hash reverses its input (and appends the key, when keyed). *)
#[export] Instance sodium : Sodium := {|
  crypto_generichash input key := reverse input ++ default [] key;
  crypto_generichash_batch inputs key := reverse (concat inputs) ++ default [] key;
  crypto_sign_verify_detached sig signable publicKey :=
    bool_decide (sig = signable ++ publicKey)
|}.

Definition address_of_byte (b : byte) : Address :=
  {| host := "127.0.0.1"; port := Byte.to_N b |}.
Definition byte_of_address (a : Address) : byte :=
  default x00 (Byte.of_N (port a)).

(** A peer is its 32-byte key, the number of addresses, and a byte for
    each address. *)
Definition write_peer (p : Peer) : Buffer :=
  publicKey p ++ byte_of_nat (length (relayAddresses p))
    :: (byte_of_address <$> relayAddresses p).

Definition parse_peer (b : Buffer) : option (Peer * Buffer) :=
  match drop 32 b with
  | n :: rest =>
      if bool_decide (nat_of_byte n ≤ length rest)%nat
      then Some ({| publicKey := take 32 b;
                    relayAddresses := address_of_byte <$> take (nat_of_byte n) rest |},
                 drop (nat_of_byte n) rest)
      else None
  | [] => None
  end.

(** An announce is a byte of flags (1: peer, 2: refresh, 4: signature),
    the peer, 32 bytes of refresh, and the signature to the end. *)
Definition parse_announce (b : Buffer) : option Announce :=
  match b with
  | flags :: rest =>
      let f := Byte.to_N flags in
      match (if N.testbit f 0 then parse_peer rest
             else Some ({| publicKey := []; relayAddresses := [] |}, rest)) with
      | Some (p, rest) =>
          let has_refresh := N.testbit f 1 in
          let rest' := if has_refresh then drop 32 rest else rest in
          Some {| peer := if N.testbit f 0 then Some p else None;
                  refresh := if has_refresh then Some (take 32 rest) else None;
                  signature := if N.testbit f 2 then Some rest' else None |}
      | None => None
      end
  | [] => None
  end.

(** A put request is the 32-byte key, a byte of seq, a byte for the length
    of the value, the value, and the signature to the end. *)
Definition parse_mutablePutRequest (b : Buffer) : option MutablePutRequest :=
  match drop 32 b with
  | seq :: n :: rest =>
      if bool_decide (nat_of_byte n ≤ length rest)%nat
      then Some {| put_publicKey := take 32 b;
                   put_seq := Byte.to_N seq;
                   put_value := if bool_decide (nat_of_byte n = 0%nat) then None
                                else Some (take (nat_of_byte n) rest);
                   put_signature := drop (nat_of_byte n) rest |}
      else None
  | _ => None
  end.

Definition write_mutableGetResponse (r : MutableGetResponse) : Buffer :=
  default x00 (Byte.of_N (get_seq r)) :: byte_of_nat (length (get_value r))
    :: get_value r ++ get_signature r.

Definition frame (b : Buffer) : Buffer := byte_of_nat (length b) :: b.

#[export] Instance messages : Messages := {|
  NS_ANNOUNCE := [x00];
  NS_UNANNOUNCE := [x01];
  NS_MUTABLE_PUT := [x02];
  decode_announce := parse_announce;
  encode_peer := write_peer;
  encode_peer_null := None;
  decode_mutablePutRequest := parse_mutablePutRequest;
  encode_mutableGetResponse := write_mutableGetResponse;
  encode_mutableGetResponse_Buffer local := Some (replicate 74 x00);
  encode_mutableSignable seq value := default x00 (Byte.of_N seq) :: value;
  decode_uint b := Byte.to_N <$> head b;
  encode_rawArray l := byte_of_nat (length l) :: concat (frame <$> l)
|}.

(** The first [n] values. *)
#[export] Program Instance sampler : Sampler := {| pick n l := take n l |}.
Next Obligation. intros n l. rewrite length_take. lia. Qed.
Next Obligation. intros n l x Hx. exact (subseteq_take n l x Hx). Qed.
Next Obligation. intros n l Hl. rewrite take_ge by lia. reflexivity. Qed.

(** Signing, for the scheme above. *)
Definition sign (signable publicKey : Buffer) : Buffer := signable ++ publicKey.

Definition write_announce (ann : Announce) : Buffer :=
  byte_of_nat ((if peer ann is Some _ then 1 else 0)
               + (if refresh ann is Some _ then 2 else 0)
               + (if signature ann is Some _ then 4 else 0))
    :: default [] (write_peer <$> peer ann) ++ default [] (refresh ann)
       ++ default [] (signature ann).

Definition write_mutablePutRequest (p : MutablePutRequest) : Buffer :=
  put_publicKey p ++ default x00 (Byte.of_N (put_seq p))
    :: byte_of_nat (length (default [] (put_value p)))
    :: default [] (put_value p) ++ put_signature p.

(** Keys, targets and tokens of 32 bytes. *)
Definition key (b : byte) : Buffer := replicate 31 x00 ++ [b].
Definition target_of (publicKey : Buffer) : Buffer := reverse publicKey.
Definition from : Address := {| host := "10.0.0.7"; port := 4001%N |}.
Definition token : Buffer := key x09.
Definition node : Buffer := key x2a.

(** A store that holds nothing, on a node whose Router holds nothing. *)
Definition empty : Persistent :=
  {| dht := {| id := node; _router := ∅ |};
     records := ∅; refreshes := ∅; mutables := ∅; immutables := ∅ |}.

(** A peer with five relay addresses. *)
Definition alice : Peer :=
  {| publicKey := key x07;
     relayAddresses := address_of_byte <$> [x01; x02; x03; x04; x05] |}.

(** The announce or unannounce of a peer for a target, signed. *)
Definition signed (ns target : Buffer) (p : Peer) (refresh : option Buffer)
  : Announce :=
  {| peer := Some p; refresh := refresh;
     signature :=
       Some (sign (crypto_generichash_batch
                     [target; node; token; write_peer p; default EMPTY refresh]
                     (Some ns))
                  (publicKey p)) |}.

Definition request (target : Buffer) (value : option Buffer) : Request :=
  {| req_target := Some target; req_token := Some token;
     req_value := value; req_from := from |}.

(** alice announces herself: the target is the hash of her key. *)
Definition announce_self : Request :=
  request (target_of (publicKey alice))
    (Some (write_announce
             (signed NS_ANNOUNCE (target_of (publicKey alice)) alice None))).

(** alice announces under a topic, with a refresh token. *)
Definition topic : Buffer := key x33.
Definition refresh0 : Buffer := key x44.
Definition announce_topic : Request :=
  request topic
    (Some (write_announce (signed NS_ANNOUNCE topic alice (Some refresh0)))).

(** The token whose hash is [refresh0]. *)
Definition refresh1 : Buffer := reverse refresh0.
Definition refresh_topic : Request :=
  request topic
    (Some (write_announce
             {| peer := None; refresh := Some refresh1; signature := None |})).

Definition unannounce_self : Request :=
  request (target_of (publicKey alice))
    (Some (write_announce
             (signed NS_UNANNOUNCE (target_of (publicKey alice)) alice None))).

(** A mutable put of alice, signed. *)
Definition put (seq : N) (value : Buffer) : MutablePutRequest :=
  {| put_publicKey := publicKey alice; put_seq := seq; put_value := Some value;
     put_signature :=
       sign (crypto_generichash (encode_mutableSignable seq value)
               (Some NS_MUTABLE_PUT))
            (publicKey alice) |}.

Definition mutable_put (seq : N) (value : Buffer) : Request :=
  request (target_of (publicKey alice))
    (Some (write_mutablePutRequest (put seq value))).

Definition mutable_get (seq : N) : Request :=
  request (target_of (publicKey alice)) (Some [default x00 (Byte.of_N seq)]).

(** The values "a" and "b". *)
Definition a : Buffer := [x61].
Definition b : Buffer := [x62].

Definition immutable_put (target value : Buffer) : Request :=
  request target (Some value).
Definition immutable_get (target : Buffer) : Request := request target None.

(** The secret key of the scheme above is the public key itself. *)
#[export] Program Instance signer : Signer := {|
  crypto_sign_detached message secretKey := sign message secretKey;
  crypto_sign_ed25519_sk_to_pk secretKey := secretKey
|}.
Next Obligation.
  intros message secretKey. cbn. apply bool_decide_eq_true_2. reflexivity.
Qed.

(** A second peer, bob, and a second topic. *)
Definition bob : Peer :=
  {| publicKey := key x08; relayAddresses := address_of_byte <$> [x09] |}.
Definition topic' : Buffer := key x34.

(** alice once more, now with a single relay address; bob announcing
    himself; alice taking her announce under the topic back. *)
Definition alice' : Peer :=
  {| publicKey := publicKey alice; relayAddresses := address_of_byte <$> [x06] |}.
Definition bob_self : Request :=
  request (target_of (publicKey bob))
    (Some (write_announce
             (signed NS_ANNOUNCE (target_of (publicKey bob)) bob None))).
Definition unannounce_topic : Request :=
  request topic (Some (write_announce (signed NS_UNANNOUNCE topic alice None))).

(** The codec above, but that [c.encode] with [m.mutableGetResponse]
    throws on a Buffer, which has no 64 bytes of signature to write. *)
Definition messages_strict : Messages := {|
  NS_ANNOUNCE := [x00];
  NS_UNANNOUNCE := [x01];
  NS_MUTABLE_PUT := [x02];
  decode_announce := parse_announce;
  encode_peer := write_peer;
  encode_peer_null := None;
  decode_mutablePutRequest := parse_mutablePutRequest;
  encode_mutableGetResponse := write_mutableGetResponse;
  encode_mutableGetResponse_Buffer local := None;
  encode_mutableSignable seq value := default x00 (Byte.of_N seq) :: value;
  decode_uint b := Byte.to_N <$> head b;
  encode_rawArray l := byte_of_nat (length l) :: concat (frame <$> l)
|}.

(** alice announcing herself once more, with her single relay address. *)
Definition announce_self' : Request :=
  request (target_of (publicKey alice))
    (Some (write_announce
             (signed NS_ANNOUNCE (target_of (publicKey alice)) alice' None))).

End Toy.

(** * Connection establishment *)

(** Modelled from the spec: the Connector and the two Hole-punchers of a
    connection attempt (lib/connect.js, lib/server.js and
    lib/holepuncher.js, of which only the test test/connections.js is at
    hand). The Connector goes through the phases of spec 4.3, each side's
    puncher through the states of spec 4.4; the user hook [holepunch] of a
    side is asked before probing starts and vetoes by returning false; the
    relay forwards the abort and both sides close; a failure surfaces on
    the client's Socket as [error] and then [close]; the server's
    [onConnection] fires when the stream opens. *)
Module Connect.

Inductive Phase := IDLE | LOOKING_UP | RELAYING | PUNCHING | OPEN | CLOSED.

Inductive Puncher :=
| NEW | CLASSIFYING | NEGOTIATING | PROBING | LOCKED | VETOED | TIMEOUT | DONE.

Inductive Firewall := FW_OPEN | FW_CONSISTENT | FW_RANDOM.

Inductive Code := PEER_NOT_FOUND | HOLEPUNCH_ABORTED | HOLEPUNCH_TIMEOUT.

(** What the client's Socket emits. *)
Inductive Event := open | error (code : Code) | close.

#[global] Instance Phase_eq_dec : EqDecision Phase.
Proof. solve_decision. Defined.
#[global] Instance Puncher_eq_dec : EqDecision Puncher.
Proof. solve_decision. Defined.
#[global] Instance Firewall_eq_dec : EqDecision Firewall.
Proof. solve_decision. Defined.
#[global] Instance Code_eq_dec : EqDecision Code.
Proof. solve_decision. Defined.
#[global] Instance Event_eq_dec : EqDecision Event.
Proof. solve_decision. Defined.

(** [holepunch (remoteFirewall, localFirewall, remoteAddress, localAddress)] *)
Definition Hook := Firewall → Firewall → Address → Address → bool.

(** What is fixed for an attempt: the hooks of the two sides' options
    (absent: no veto), their firewalls and their addresses. *)
Record Setting := {
  client_holepunch : option Hook;
  server_holepunch : option Hook;
  client_firewall : Firewall;
  server_firewall : Firewall;
  client_address : Address;
  server_address : Address
}.

Record Attempt := {
  phase : Phase;
  client : option Puncher;    (* [None]: no puncher yet *)
  server : option Puncher;
  events : list Event;        (* of the client's Socket, oldest first *)
  connections : nat           (* times the server's onConnection fired *)
}.

Definition idle : Attempt :=
  {| phase := IDLE; client := None; server := None; events := []; connections := 0 |}.

(** Whether the hook of a side lets the punch go on. *)
Definition client_permits (e : Setting) : bool :=
  match client_holepunch e with
  | Some hook => hook (server_firewall e) (client_firewall e)
                      (server_address e) (client_address e)
  | None => true
  end.

Definition server_permits (e : Setting) : bool :=
  match server_holepunch e with
  | Some hook => hook (client_firewall e) (server_firewall e)
                      (client_address e) (server_address e)
  | None => true
  end.

(** The strategy table: only RANDOM against RANDOM is unreachable. *)
Definition reachable (e : Setting) : bool :=
  negb (bool_decide (client_firewall e = FW_RANDOM)
        && bool_decide (server_firewall e = FW_RANDOM)).

(** What can happen next; which of them does is up to the network. *)
Inductive Label :=
| Start              (* connect () is called *)
| Found              (* the lookup returned the server's record *)
| NotFound           (* the lookup ended without a record *)
| Relayed            (* the relay forwarded the connect to the server *)
| ClientAdvance      (* the client's puncher moves on to its next state *)
| ServerAdvance
| ClientHook         (* the client's hook is asked *)
| ServerHook
| Abort              (* the relay forwards a veto *)
| Probe              (* t0: both sides start probing *)
| Lock               (* a probe got through *)
| Expire             (* the probing timed out *)
| Surface            (* the timeout surfaces *)
| Opened             (* the stream opens *)
| Finish.            (* the stream is closed *)

Definition advance (p : option Puncher) : option (option Puncher) :=
  match p with
  | Some NEW => Some (Some CLASSIFYING)
  | Some CLASSIFYING => Some (Some NEGOTIATING)
  | _ => None
  end.

Definition fail (a : Attempt) (code : Code) : Attempt :=
  {| phase := CLOSED;
     client := (λ _, DONE) <$> client a;
     server := (λ _, DONE) <$> server a;
     events := events a ++ [error code; close];
     connections := connections a |}.

(** Modelled from the spec: one step of an attempt, by the phases of spec
    4.3, the puncher states, veto and cancellation of spec 4.4, and the
    error then close of spec 7. *)
Definition step (e : Setting) (l : Label) (a : Attempt) : option Attempt :=
  match l, phase a with
  | Start, IDLE =>
      Some {| phase := LOOKING_UP; client := client a; server := server a;
              events := events a; connections := connections a |}
  | Found, LOOKING_UP =>
      Some {| phase := RELAYING; client := client a; server := server a;
              events := events a; connections := connections a |}
  | NotFound, LOOKING_UP => Some (fail a PEER_NOT_FOUND)
  | Relayed, RELAYING =>
      Some {| phase := PUNCHING; client := Some NEW; server := Some NEW;
              events := events a; connections := connections a |}
  | ClientAdvance, PUNCHING =>
      c ← advance (client a);
      Some {| phase := PUNCHING; client := c; server := server a;
              events := events a; connections := connections a |}
  | ServerAdvance, PUNCHING =>
      s ← advance (server a);
      Some {| phase := PUNCHING; client := client a; server := s;
              events := events a; connections := connections a |}
  | ClientHook, PUNCHING =>
      if bool_decide (client a = Some NEGOTIATING) && negb (client_permits e)
      then Some {| phase := PUNCHING; client := Some VETOED; server := server a;
                   events := events a; connections := connections a |}
      else None
  | ServerHook, PUNCHING =>
      if bool_decide (server a = Some NEGOTIATING) && negb (server_permits e)
      then Some {| phase := PUNCHING; client := client a; server := Some VETOED;
                   events := events a; connections := connections a |}
      else None
  | Abort, PUNCHING =>
      if bool_decide (client a = Some VETOED) || bool_decide (server a = Some VETOED)
      then Some (fail a HOLEPUNCH_ABORTED)
      else None
  | Probe, PUNCHING =>
      if bool_decide (client a = Some NEGOTIATING)
         && bool_decide (server a = Some NEGOTIATING)
         && client_permits e && server_permits e
      then Some {| phase := PUNCHING; client := Some PROBING; server := Some PROBING;
                   events := events a; connections := connections a |}
      else None
  | Lock, PUNCHING =>
      if bool_decide (client a = Some PROBING)
         && bool_decide (server a = Some PROBING) && reachable e
      then Some {| phase := PUNCHING; client := Some LOCKED; server := Some LOCKED;
                   events := events a; connections := connections a |}
      else None
  | Expire, PUNCHING =>
      if bool_decide (client a = Some PROBING)
         && bool_decide (server a = Some PROBING)
      then Some {| phase := PUNCHING; client := Some TIMEOUT; server := Some TIMEOUT;
                   events := events a; connections := connections a |}
      else None
  | Surface, PUNCHING =>
      if bool_decide (client a = Some TIMEOUT)
      then Some (fail a HOLEPUNCH_TIMEOUT)
      else None
  | Opened, PUNCHING =>
      if bool_decide (client a = Some LOCKED) && bool_decide (server a = Some LOCKED)
      then Some {| phase := OPEN; client := Some DONE; server := Some DONE;
                   events := events a ++ [open];
                   connections := S (connections a) |}
      else None
  | Finish, OPEN =>
      Some {| phase := CLOSED; client := client a; server := server a;
              events := events a ++ [close]; connections := connections a |}
  | _, _ => None
  end.

(** A run: the attempt after a sequence of labels, if each could happen. *)
Fixpoint run (e : Setting) (ls : list Label) (a : Attempt) : option Attempt :=
  match ls with
  | [] => Some a
  | l :: ls => a' ← step e l a; run e ls a'
  end.

(** The setting of the test 'server choosing to abort holepunch'. *)
Definition server_aborts : Setting :=
  {| client_holepunch := None;
     server_holepunch := Some (λ _ _ _ _, false);
     client_firewall := FW_CONSISTENT;
     server_firewall := FW_CONSISTENT;
     client_address := {| host := "127.0.0.1"; port := 50001%N |};
     server_address := {| host := "127.0.0.1"; port := 50002%N |} |}.

(** What holds of an attempt all along when the server's hook vetoes. *)
Definition waiting (p : option Puncher) : bool :=
  match p with
  | Some NEW | Some CLASSIFYING | Some NEGOTIATING | Some VETOED => true
  | _ => false
  end.

Definition vetoed_invariant (a : Attempt) : bool :=
  bool_decide (connections a = 0%nat)
  && match phase a with
     | IDLE | LOOKING_UP | RELAYING =>
         bool_decide (events a = []) && bool_decide (client a = None)
         && bool_decide (server a = None)
     | PUNCHING =>
         bool_decide (events a = []) && waiting (client a) && waiting (server a)
     | OPEN => false
     | CLOSED =>
         (bool_decide (server a = None)
          && bool_decide (events a = [error PEER_NOT_FOUND; close]))
         || (bool_decide (server a = Some DONE)
             && bool_decide (events a = [error HOLEPUNCH_ABORTED; close]))
     end.

(** How many steps an attempt has left at most when the server's hook
    vetoes. *)
Definition rank (p : option Puncher) : nat :=
  match p with
  | Some NEW => 3
  | Some CLASSIFYING => 2
  | Some NEGOTIATING => 1
  | _ => 0
  end.

Definition steps_left (a : Attempt) : nat :=
  match phase a with
  | IDLE => 10
  | LOOKING_UP => 9
  | RELAYING => 8
  | PUNCHING => 1 + rank (client a) + rank (server a)
  | OPEN => 1
  | CLOSED => 0
  end.

(** The run in which the server's hook is asked as soon as its puncher
    negotiates, and the relay forwards the veto. *)
Definition veto_run : list Label :=
  [Start; Found; Relayed; ServerAdvance; ServerAdvance; ServerHook; Abort].

(** The setting of the test 'client choosing to abort holepunch', and of
    the example client: the hook of the client returns false. *)
Definition client_aborts : Setting :=
  {| client_holepunch := Some (λ _ _ _ _, false);
     server_holepunch := None;
     client_firewall := FW_CONSISTENT;
     server_firewall := FW_CONSISTENT;
     client_address := {| host := "127.0.0.1"; port := 50001%N |};
     server_address := {| host := "127.0.0.1"; port := 50002%N |} |}.

(** The run in which the client's hook is asked as soon as its puncher
    negotiates, and the relay forwards the veto. *)
Definition client_veto_run : list Label :=
  [Start; Found; Relayed; ClientAdvance; ClientAdvance; ClientHook; Abort].

End Connect.

(** * Properties of the store *)

(** ** Hex strings *)

Lemma Hex_to_byte_of_byte (x : byte) :
  Hex.to_byte (fst (Hex.of_byte x)) (snd (Hex.of_byte x)) = Some x.
Proof. destruct x; vm_compute; reflexivity. Qed.

Lemma Hex_decode_encode (b : Buffer) : Hex.decode (hex b) = Some b.
Proof.
  induction b as [|x b IH]; [reflexivity|].
  cbn [Hex.encode]. pose proof (Hex_to_byte_of_byte x) as Hx.
  destruct (Hex.of_byte x) as [hi lo]. cbn [fst snd] in Hx.
  cbn [Hex.decode]. rewrite Hx, IH. reflexivity.
Qed.

(** Two targets with the same hex string are the same target. *)
#[global] Instance hex_inj : Inj (=) (=) Hex.encode.
Proof.
  intros a b Hab.
  assert (Some a = Some b) as Heq
    by (rewrite <- (Hex_decode_encode a), <- (Hex_decode_encode b), Hab; reflexivity).
  congruence.
Qed.

Lemma hex_length (b : Buffer) : String.length (hex b) = (2 * length b)%nat.
Proof.
  induction b as [|x b IH]; [reflexivity|].
  cbn [Hex.encode]. destruct (Hex.of_byte x). cbn. lia.
Qed.

(** ** The caches *)

Section Caches.

Lemma RecordCache_lookup_add (c : RecordCache.t) name key value :
  RecordCache.lookup (RecordCache.add name key value c) name key = Some value.
Proof.
  unfold RecordCache.lookup, RecordCache.add, RecordCache.entries.
  rewrite lookup_insert_eq. cbn. apply lookup_insert_eq.
Qed.

Lemma RecordCache_lookup_add_ne (c : RecordCache.t) name key value name' key' :
  (name, key) ≠ (name', key') →
  RecordCache.lookup (RecordCache.add name key value c) name' key'
  = RecordCache.lookup c name' key'.
Proof.
  intros Hne. unfold RecordCache.lookup, RecordCache.add, RecordCache.entries.
  destruct (decide (name = name')) as [<-|Hn].
  - rewrite lookup_insert_eq. cbn. rewrite lookup_insert_ne by congruence.
    reflexivity.
  - rewrite lookup_insert_ne by assumption. reflexivity.
Qed.

Lemma RecordCache_lookup_remove (c : RecordCache.t) name key :
  RecordCache.lookup (RecordCache.remove name key c) name key = None.
Proof.
  unfold RecordCache.lookup, RecordCache.remove, RecordCache.entries.
  rewrite lookup_alter_eq. destruct (c !! name) as [m|]; cbn.
  - apply lookup_delete_eq.
  - apply lookup_empty.
Qed.

Lemma RecordCache_lookup_remove_ne (c : RecordCache.t) name key name' key' :
  (name, key) ≠ (name', key') →
  RecordCache.lookup (RecordCache.remove name key c) name' key'
  = RecordCache.lookup c name' key'.
Proof.
  intros Hne. unfold RecordCache.lookup, RecordCache.remove, RecordCache.entries.
  destruct (decide (name = name')) as [<-|Hn].
  - rewrite lookup_alter_eq. destruct (c !! name) as [m|]; cbn; [|reflexivity].
    rewrite lookup_delete_ne by congruence. reflexivity.
  - rewrite lookup_alter_ne by assumption. reflexivity.
Qed.

(** Removing a record that is not there leaves the cache as it is. *)
Lemma RecordCache_remove_absent (c : RecordCache.t) name key :
  RecordCache.lookup c name key = None → RecordCache.remove name key c = c.
Proof.
  unfold RecordCache.lookup, RecordCache.remove, RecordCache.entries.
  intros Hnone. apply map_eq. intros name'.
  destruct (decide (name = name')) as [<-|Hn].
  - rewrite lookup_alter_eq. destruct (c !! name) as [m|]; cbn in *; [|reflexivity].
    rewrite delete_id by assumption. reflexivity.
  - rewrite lookup_alter_ne by assumption. reflexivity.
Qed.

(** Every value that [get] returns is stored under the name, under some key. *)
Lemma RecordCache_get_stored `{Sampler} (c : RecordCache.t) name n r :
  r ∈ RecordCache.get c name n → ∃ key, RecordCache.lookup c name key = Some r.
Proof.
  unfold RecordCache.get, RecordCache.values, RecordCache.lookup.
  intros Hin. apply pick_elem in Hin.
  apply list_elem_of_fmap in Hin as [[key v] [-> Hkv]].
  exists key. apply elem_of_map_to_list in Hkv. exact Hkv.
Qed.

Lemma RecordCache_get_length `{Sampler} (c : RecordCache.t) name n :
  (length (RecordCache.get c name n) ≤ n)%nat.
Proof. apply pick_length. Qed.

End Caches.

(** ** Announce, findPeer and lookup *)

Section Announce.
Context `{Sodium, Messages, Sampler}.

(** With a peer at hand [annSignable] returns, and returns the hash of the
    five parts under the name space. *)
Lemma annSignable_peer target token id ann ns p :
  peer ann = Some p →
  annSignable target token id ann ns
  = Some (crypto_generichash_batch
            [target; id; token; encode_peer p; default EMPTY (refresh ann)]
            (Some ns)).
Proof. intros Hp. unfold annSignable. rewrite Hp. reflexivity. Qed.

Lemma truncate_relayAddresses p :
  relayAddresses (truncate p) = take 3 (relayAddresses p).
Proof.
  unfold truncate. case_bool_decide as Hlen; [reflexivity|].
  rewrite take_ge by lia. reflexivity.
Qed.

Lemma truncate_publicKey p : publicKey (truncate p) = publicKey p.
Proof. unfold truncate. case_bool_decide; reflexivity. Qed.

Lemma truncate_length p : (length (relayAddresses (truncate p)) ≤ 3)%nat.
Proof. rewrite truncate_relayAddresses, length_take. lia. Qed.

(** [onannounce] on an announce that carries a peer. *)
Lemma onannounce_with_peer s req target token ann p :
  req_target req = Some target →
  req_token req = Some token →
  decode decode_announce (req_value req) = Some ann →
  peer ann = Some p →
  onannounce s req
  = if verifies s target token ann p NS_ANNOUNCE
    then (announced s req target ann p, Replied None bare)
    else (s, Dropped).
Proof.
  intros Htarget Htoken Hdecode Hpeer.
  unfold onannounce. rewrite Htarget, Htoken, Hdecode.
  rewrite (annSignable_peer _ _ _ _ _ _ Hpeer), Hpeer.
  unfold verifies, announced.
  destruct (signature ann) as [sig|]; [|reflexivity].
  destruct (crypto_sign_verify_detached _ _ _); reflexivity.
Qed.

Lemma announced_router_self s req target ann p :
  crypto_generichash (publicKey p) None = target →
  _router (dht (announced s req target ann p))
  = <[hex target := forward req (encode_peer (truncate p))]> (_router (dht s)).
Proof.
  intros Hself. unfold announced. rewrite truncate_publicKey.
  rewrite bool_decide_eq_true_2 by assumption.
  destruct (refresh ann); reflexivity.
Qed.

(** C1. An announce with target, token and a payload that decodes to a
    peer changes nothing and is not answered unless its signature
    verifies over the announce signable. When it verifies, the record is
    the encoding of the peer with at most three relay addresses (the
    first three); with [hash (publicKey) = target] it becomes the Router
    entry of the target, with [req.from] as relay, and the LRU loses its
    record under (target, publicKey); otherwise the LRU gets the record
    under (target, publicKey) and the Router stays as it is. *)
Theorem onannounce_stores_verified_record s req target token ann p :
  req_target req = Some target →
  req_token req = Some token →
  decode decode_announce (req_value req) = Some ann →
  peer ann = Some p →
  let stored := truncate p in
  let record := encode_peer stored in
  let key := hex target in
  let s' := fst (onannounce s req) in
  (verifies s target token ann p NS_ANNOUNCE = false →
     onannounce s req = (s, Dropped))
  ∧ (verifies s target token ann p NS_ANNOUNCE = true →
       snd (onannounce s req) = Replied None bare
       ∧ publicKey stored = publicKey p
       ∧ relayAddresses stored = take 3 (relayAddresses p)
       ∧ (length (relayAddresses stored) ≤ 3)%nat
       ∧ if bool_decide (crypto_generichash (publicKey p) None = target)
         then
           _router (dht s') = <[key := forward req record]> (_router (dht s))
           ∧ Router.get (_router (dht s')) (Router.Str key)
             = Some (forward req record)
           ∧ records s' = RecordCache.remove key (publicKey p) (records s)
           ∧ RecordCache.lookup (records s') key (publicKey p) = None
         else
           _router (dht s') = _router (dht s)
           ∧ records s' = RecordCache.add key (publicKey p) record (records s)
           ∧ RecordCache.lookup (records s') key (publicKey p) = Some record).
Proof.
  intros Htarget Htoken Hdecode Hpeer stored record key s'. subst s'.
  rewrite (onannounce_with_peer _ _ _ _ _ _ Htarget Htoken Hdecode Hpeer).
  split.
  - intros ->. reflexivity.
  - intros ->. cbn [fst snd].
    split; [reflexivity|].
    split; [apply truncate_publicKey|].
    split; [apply truncate_relayAddresses|].
    split; [apply truncate_length|].
    unfold announced. fold stored record key. subst stored.
    rewrite truncate_publicKey.
    case_bool_decide as Hself; cbn zeta.
    + repeat split; destruct (refresh ann); cbn;
        try reflexivity; try apply lookup_insert_eq;
        apply RecordCache_lookup_remove.
    + repeat split; destruct (refresh ann); cbn;
        try reflexivity; apply RecordCache_lookup_add.
Qed.

(** C3. A findPeer with a target is answered with the record of the
    Router's entry for the target, and with null when the Router has no
    such entry; after an announce of a key whose hash is the target, it is
    answered with the announced record. *)
Theorem onfindpeer_replies_router_record s req target :
  req_target req = Some target →
  onfindpeer s req
  = (s, Replied (record <$> Router.get (_router (dht s)) (Router.Buf target)) None)
  ∧ (∀ fwd, _router (dht s) !! hex target = Some fwd →
            snd (onfindpeer s req) = Replied (Some (record fwd)) None)
  ∧ (_router (dht s) !! hex target = None →
       snd (onfindpeer s req) = Replied None None)
  ∧ (∀ announce token ann p,
       req_target announce = Some target →
       req_token announce = Some token →
       decode decode_announce (req_value announce) = Some ann →
       peer ann = Some p →
       verifies s target token ann p NS_ANNOUNCE = true →
       crypto_generichash (publicKey p) None = target →
       snd (onfindpeer (fst (onannounce s announce)) req)
       = Replied (Some (encode_peer (truncate p))) None).
Proof.
  intros Htarget.
  assert (∀ s0, onfindpeer s0 req
                = (s0, Replied (record <$> _router (dht s0) !! hex target) None))
    as Hrun.
  { intros s0. unfold onfindpeer. rewrite Htarget. cbn.
    destruct (_router (dht s0) !! hex target); reflexivity. }
  split; [apply Hrun|]. split; [|split].
  - intros fwd Hfwd. rewrite Hrun, Hfwd. reflexivity.
  - intros Hnone. rewrite Hrun, Hnone. reflexivity.
  - intros announce token ann p Ht Hk Hdecode Hpeer Hverifies Hself.
    rewrite (onannounce_with_peer _ _ _ _ _ _ Ht Hk Hdecode Hpeer), Hverifies.
    cbn [fst]. rewrite Hrun, (announced_router_self _ _ _ _ _ Hself).
    rewrite lookup_insert_eq. reflexivity.
Qed.

(** C4. A lookup with a target is answered with at most 20 records: the
    at most 20 that the LRU returns for the target, each stored there
    under the target, and after them the record of the Router's entry for
    the target when there is one and the LRU returned fewer than 20; with
    no record at all the payload is null. *)
Theorem onlookup_replies_at_most_20 s req target :
  req_target req = Some target →
  let lru := RecordCache.get (records s) (hex target) 20 in
  let own :=
    match Router.get (_router (dht s)) (Router.Str (hex target)) with
    | Some fwd => if bool_decide (length lru < 20)%nat then [record fwd] else []
    | None => []
    end in
  onlookup s req
  = (s, Replied (match lru ++ own with
                 | [] => None
                 | _ :: _ => Some (encode_rawArray (lru ++ own))
                 end) None)
  ∧ (length lru ≤ 20)%nat
  ∧ (length (lru ++ own) ≤ 20)%nat
  ∧ (∀ r, r ∈ lru → ∃ key, RecordCache.lookup (records s) (hex target) key = Some r).
Proof.
  intros Htarget lru own.
  pose proof (RecordCache_get_length (records s) (hex target) 20) as Hlen.
  fold lru in Hlen.
  split; [|split; [exact Hlen|split]].
  - unfold onlookup. rewrite Htarget. cbn zeta. fold lru.
    set (found := match Router.get _ _ with Some _ => _ | None => lru end).
    assert (found = lru ++ own) as ->.
    { subst found own.
      destruct (Router.get (_router (dht s)) (Router.Str (hex target)));
        [case_bool_decide|]; rewrite ?app_nil_r; reflexivity. }
    destruct (lru ++ own); reflexivity.
  - subst own. rewrite length_app.
    destruct (Router.get (_router (dht s)) (Router.Str (hex target)));
      [case_bool_decide|]; cbn; lia.
  - intros r Hr. eapply RecordCache_get_stored. exact Hr.
Qed.

End Announce.

(** ** Refresh and unannounce *)

Section Refresh.
Context `{Sodium, Messages, Sampler}.

(** An announce that carries only a refresh token is a refresh, when
    [annSignable] gets past the encoding of its absent peer. *)
Lemma onannounce_refresh_only s req target token ann t encoded :
  req_target req = Some target →
  req_token req = Some token →
  decode decode_announce (req_value req) = Some ann →
  peer ann = None →
  refresh ann = Some t →
  encode_peer_null = Some encoded →
  onannounce s req = _onrefresh s t req.
Proof.
  intros Htarget Htoken Hdecode Hpeer Hrefresh Hnull.
  unfold onannounce, annSignable.
  rewrite Htarget, Htoken, Hdecode, Hpeer, Hnull, Hrefresh. reflexivity.
Qed.

(** C5. A refresh with token [t], when [refreshes] holds an entry under
    the hex of [hash t]: the handler replies; the record of the entry is
    installed again, in the Router (with [req.from] as relay, and removed
    from the LRU) when the entry is marked [announceSelf], in the LRU
    otherwise; [refreshes] loses the slot of [hex (hash t)] and then
    binds the same entry under [hex t]. No signature is looked at: the
    result is the same whatever the signature scheme accepts. A refresh
    whose token has no slot changes nothing and is not answered. *)
Theorem onrefresh_rotates_token s token req :
  let slot := hex (crypto_generichash token None) in
  let s' := fst (_onrefresh s token req) in
  (∀ r, refreshes s !! slot = Some r →
     let publicKey := subarray 0 32 (refresh_record r) in
     snd (_onrefresh s token req) = Replied None bare
     ∧ refreshes s' = <[hex token := r]> (delete slot (refreshes s))
     ∧ refreshes s' !! hex token = Some r
     ∧ (crypto_generichash token None ≠ token → refreshes s' !! slot = None)
     ∧ (if announceSelf r
        then
          _router (dht s')
          = <[k r := forward req (refresh_record r)]> (_router (dht s))
          ∧ records s' = RecordCache.remove (k r) publicKey (records s)
        else
          _router (dht s') = _router (dht s)
          ∧ records s'
            = RecordCache.add (k r) publicKey (refresh_record r) (records s))
     ∧ mutables s' = mutables s ∧ immutables s' = immutables s)
  ∧ (refreshes s !! slot = None → _onrefresh s token req = (s, Dropped))
  ∧ (∀ verify, @_onrefresh (with_verify _ verify) s token req
               = _onrefresh s token req).
Proof.
  intros slot s'. split; [|split].
  - intros r Hslot publicKey. subst s'. unfold _onrefresh. fold slot.
    rewrite Hslot. cbn zeta.
    split; [reflexivity|].
    assert (∀ s0, refreshes s0 = refreshes s →
              refreshes (set_refreshes
                           (<[hex token := r]>
                              (refreshes (set_refreshes
                                            (delete slot (refreshes s0)) s0)))
                           (set_refreshes (delete slot (refreshes s0)) s0))
              = <[hex token := r]> (delete slot (refreshes s))) as Hrefreshes
      by (intros s0 ->; reflexivity).
    destruct (announceSelf r); cbn [fst].
    + rewrite Hrefreshes by reflexivity.
      split; [reflexivity|]. split; [apply lookup_insert_eq|].
      split; [|repeat split].
      intros Hne. rewrite lookup_insert_ne, lookup_delete_eq; [reflexivity|].
      intros Heq. apply Hne. symmetry. exact (inj hex _ _ Heq).
    + rewrite Hrefreshes by reflexivity.
      split; [reflexivity|]. split; [apply lookup_insert_eq|].
      split; [|repeat split].
      intros Hne. rewrite lookup_insert_ne, lookup_delete_eq; [reflexivity|].
      intros Heq. apply Hne. symmetry. exact (inj hex _ _ Heq).
  - intros Hnone. unfold _onrefresh. fold slot. rewrite Hnone. reflexivity.
  - intros verify. reflexivity.
Qed.

(** C6. An unannounce changes the store (and is answered) only when its
    payload carries a peer and a signature that verifies, under the key
    of the peer, over the signable of [annSignable] with the UNANNOUNCE
    name space; it then deletes the Router's entry for the target exactly
    when [hash (publicKey) = target], and removes the record under
    (target, publicKey) from the LRU in either case. *)
Theorem onunannounce_removes_when_verified s req :
  (∀ target token unann p,
     req_target req = Some target →
     req_token req = Some token →
     decode decode_announce (req_value req) = Some unann →
     peer unann = Some p →
     let s' := fst (onunannounce s req) in
     if verifies s target token unann p NS_UNANNOUNCE
     then
       snd (onunannounce s req) = Replied None bare
       ∧ _router (dht s')
         = (if bool_decide (crypto_generichash (publicKey p) None = target)
            then delete (hex target) (_router (dht s))
            else _router (dht s))
       ∧ records s' = RecordCache.remove (hex target) (publicKey p) (records s)
       ∧ RecordCache.lookup (records s') (hex target) (publicKey p) = None
     else onunannounce s req = (s, Dropped))
  ∧ (onunannounce s req ≠ (s, Dropped) →
     ∃ target token unann p,
       req_target req = Some target
       ∧ req_token req = Some token
       ∧ decode decode_announce (req_value req) = Some unann
       ∧ peer unann = Some p
       ∧ verifies s target token unann p NS_UNANNOUNCE = true).
Proof.
  assert (∀ target token unann p,
            req_target req = Some target →
            req_token req = Some token →
            decode decode_announce (req_value req) = Some unann →
            peer unann = Some p →
            onunannounce s req
            = if verifies s target token unann p NS_UNANNOUNCE
              then (unannounce s target (publicKey p), Replied None bare)
              else (s, Dropped)) as Hrun.
  { intros target token unann p Htarget Htoken Hdecode Hpeer.
    unfold onunannounce, verifies.
    rewrite Htarget, Htoken, Hdecode, Hpeer.
    destruct (signature unann) as [sig|]; [|reflexivity].
    rewrite (annSignable_peer _ _ _ _ _ _ Hpeer).
    destruct (crypto_sign_verify_detached _ _ _); reflexivity. }
  split.
  - intros target token unann p Htarget Htoken Hdecode Hpeer s'. subst s'.
    rewrite (Hrun _ _ _ _ Htarget Htoken Hdecode Hpeer).
    destruct (verifies s target token unann p NS_UNANNOUNCE); [|reflexivity].
    cbn [fst snd]. unfold unannounce.
    split; [reflexivity|].
    case_bool_decide; cbn; repeat split; apply RecordCache_lookup_remove.
  - intros Hacted.
    destruct (req_target req) as [target|] eqn:Htarget;
      [|exfalso; apply Hacted; unfold onunannounce; rewrite Htarget; reflexivity].
    destruct (req_token req) as [token|] eqn:Htoken;
      [|exfalso; apply Hacted; unfold onunannounce;
        rewrite Htarget, Htoken; reflexivity].
    destruct (decode decode_announce (req_value req)) as [unann|] eqn:Hdecode;
      [|exfalso; apply Hacted; unfold onunannounce;
        rewrite Htarget, Htoken, Hdecode; reflexivity].
    destruct (peer unann) as [p|] eqn:Hpeer;
      [|exfalso; apply Hacted; unfold onunannounce;
        rewrite Htarget, Htoken, Hdecode, Hpeer; reflexivity].
    destruct (verifies s target token unann p NS_UNANNOUNCE) eqn:Hverifies.
    + exists target, token, unann, p. repeat split; assumption.
    + exfalso. apply Hacted.
      rewrite (Hrun _ _ _ _ eq_refl eq_refl eq_refl Hpeer), Hverifies.
      reflexivity.
Qed.

End Refresh.

(** ** Immutable and mutable values *)

Section Values.
Context `{Sodium, Messages, Sampler}.

(** C7, as the store has it. An immutable put with target, token and
    value is accepted (the value stored under the target, and a reply
    sent) exactly when [hash (value) = target]. When the hash does not
    match, the put is dropped without a reply and the store is as
    before: a later immutable get for the target is answered as it would
    have been before the put, with null when nothing was stored under
    the target. *)
Theorem onimmutableput_accepts_iff_hash_matches s req target token value :
  req_target req = Some target →
  req_token req = Some token →
  req_value req = Some value →
  let s' := fst (onimmutableput s req) in
  (crypto_generichash value None = target →
     onimmutableput s req
     = (set_immutables (<[hex target := value]> (immutables s)) s,
        Replied None None)
     ∧ immutables s' !! hex target = Some value)
  ∧ (crypto_generichash value None ≠ target →
       onimmutableput s req = (s, Dropped)
       ∧ ∀ get, req_target get = Some target →
           onimmutableget s' get = onimmutableget s get
           ∧ (immutables s !! hex target = None →
                snd (onimmutableget s' get) = Replied None None))
  ∧ (snd (onimmutableput s req) ≠ Dropped
     ↔ crypto_generichash value None = target).
Proof.
  intros Htarget Htoken Hvalue s'. subst s'.
  unfold onimmutableput. rewrite Htarget, Htoken, Hvalue.
  case_bool_decide as Hhash; cbn [negb fst snd].
  - subst target. split; [|split].
    + intros _. split; [reflexivity|]. cbn. apply lookup_insert_eq.
    + intros Hne. contradiction.
    + split; [reflexivity|discriminate].
  - split; [|split].
    + intros Heq. contradiction.
    + intros _. split; [reflexivity|].
      intros get Hget. split; [reflexivity|].
      intros Hnone. unfold onimmutableget. rewrite Hget. cbn.
      rewrite Hnone. reflexivity.
    + split; [intros Hne; contradiction|intros Heq; contradiction].
Qed.

(** An immutable get is answered with what is stored under the target. *)
Lemma onimmutableget_reply s req target :
  req_target req = Some target →
  onimmutableget s req = (s, Replied (immutables s !! hex target) None).
Proof. intros Htarget. unfold onimmutableget. rewrite Htarget. reflexivity. Qed.

(** The two checks of [onmutableput] on [existing] never hold. *)
Lemma seq_reused_false existing seq value : seq_reused existing seq value = false.
Proof. reflexivity. Qed.

Lemma seq_too_low_false existing seq : seq_too_low existing seq = false.
Proof. reflexivity. Qed.

(** A put that passes the checks of hash and signature, on a key that has
    a record: when [c.encode] returns, the put is stored and answered. *)
Lemma onmutableput_on_existing s req target token p value local :
  req_target req = Some target →
  req_token req = Some token →
  decode decode_mutablePutRequest (req_value req) = Some p →
  crypto_generichash (put_publicKey p) None = target →
  put_value p = Some value →
  verifyMutable (put_signature p) (put_seq p) value (put_publicKey p) = true →
  mutables s !! hex target = Some local →
  onmutableput s req
  = match encode_mutableGetResponse_Buffer local with
    | Some _ =>
        (set_mutables (<[hex target := stored_put p value]> (mutables s)) s,
         Replied None None)
    | None => (s, Thrown)
    end.
Proof.
  intros Htarget Htoken Hdecode Hhash Hvalue Hverify Hlocal.
  unfold onmutableput. rewrite Htarget, Htoken.
  destruct (req_value req) as [v|] eqn:Hv; [|discriminate].
  rewrite Hdecode, Hhash, Hvalue, Hverify, Hlocal.
  rewrite bool_decide_eq_true_2 by reflexivity. cbn [negb].
  destruct (encode_mutableGetResponse_Buffer local); reflexivity.
Qed.

(** C2, on the code. A put that passes the checks of hash and signature
    is never rejected for its seq: on a key that already has a record,
    whatever seq and value that record has, the handler stores the put
    and replies, unless [c.encode] of the stored record throws; it sends
    neither SEQ_REUSED nor SEQ_TOO_LOW. *)
Theorem onmutableput_conflict_not_rejected s req target token p value local :
  req_target req = Some target →
  req_token req = Some token →
  decode decode_mutablePutRequest (req_value req) = Some p →
  crypto_generichash (put_publicKey p) None = target →
  put_value p = Some value →
  verifyMutable (put_signature p) (put_seq p) value (put_publicKey p) = true →
  mutables s !! hex target = Some local →
  (onmutableput s req
   = (set_mutables (<[hex target := stored_put p value]> (mutables s)) s,
      Replied None None)
   ∨ onmutableput s req = (s, Thrown))
  ∧ snd (onmutableput s req) ≠ Errored SEQ_REUSED
  ∧ snd (onmutableput s req) ≠ Errored SEQ_TOO_LOW.
Proof.
  intros Htarget Htoken Hdecode Hhash Hvalue Hverify Hlocal.
  rewrite (onmutableput_on_existing _ _ _ _ _ _ _
             Htarget Htoken Hdecode Hhash Hvalue Hverify Hlocal).
  destruct (encode_mutableGetResponse_Buffer local);
    (split; [auto|split; discriminate]).
Qed.

(** C10, on the code. A put on a key whose record has seq [s] and value
    [v], with the same seq and the same value, a matching hash and a
    signature that verifies: the handler does not look at the stored seq
    or value; it hands the stored Buffer to [c.encode]. When that call
    throws, the handler throws, and the put is neither stored nor
    answered; when it returns, the put is stored and answered. Either way
    the record of the key has seq [s] and value [v] afterwards. *)
Theorem onmutableput_same_content_not_compared
    s req target token p value local signature0 :
  req_target req = Some target →
  req_token req = Some token →
  decode decode_mutablePutRequest (req_value req) = Some p →
  crypto_generichash (put_publicKey p) None = target →
  put_value p = Some value →
  verifyMutable (put_signature p) (put_seq p) value (put_publicKey p) = true →
  mutables s !! hex target = Some local →
  local = encode_mutableGetResponse
            {| get_seq := put_seq p; get_value := value;
               get_signature := signature0 |} →
  (encode_mutableGetResponse_Buffer local = None →
     onmutableput s req = (s, Thrown))
  ∧ (encode_mutableGetResponse_Buffer local ≠ None →
       onmutableput s req
       = (set_mutables (<[hex target := stored_put p value]> (mutables s)) s,
          Replied None None))
  ∧ ∃ signature1,
      mutables (fst (onmutableput s req)) !! hex target
      = Some (encode_mutableGetResponse
                {| get_seq := put_seq p; get_value := value;
                   get_signature := signature1 |}).
Proof.
  intros Htarget Htoken Hdecode Hhash Hvalue Hverify Hlocal Hsame.
  rewrite (onmutableput_on_existing _ _ _ _ _ _ _
             Htarget Htoken Hdecode Hhash Hvalue Hverify Hlocal).
  destruct (encode_mutableGetResponse_Buffer local) as [existing|].
  - split; [discriminate|]. split; [reflexivity|].
    exists (put_signature p). cbn. apply lookup_insert_eq.
  - split; [reflexivity|]. split; [congruence|].
    exists signature0. cbn [fst]. rewrite Hlocal, Hsame. reflexivity.
Qed.

End Values.

(** ** The policy on failures *)

Section Policy.
Context `{Sodium, Messages, Sampler}.

(** A request that fails the validation of its handler is dropped: the
    store is as before, nothing is sent, and no exception leaves the
    handler. *)
Lemma validation_failure_dropped s req c :
  ValidationFailure s req c → onrequest c s req = (s, Dropped).
Proof.
  destruct 1 as [c Htarget|c Hwants Htoken|c Hwants Hvalue|c v Hc Hvalue Hparse
                |v Hvalue Hparse|v Hvalue Hparse
                |target token v ann p Htarget Htoken Hvalue Hparse Hpeer Hbad
                |target token v unann p Htarget Htoken Hvalue Hparse Hpeer Hbad
                |v p value Hvalue Hparse Hval Hbad
                |target v p Htarget Hvalue Hparse Hhash
                |target value Htarget Hvalue Hhash].
  - destruct c; cbn; unfold onlookup, onfindpeer, onannounce, onunannounce,
      onmutableget, onmutableput, onimmutableget, onimmutableput;
      rewrite Htarget; reflexivity.
  - destruct c; try discriminate Hwants; cbn;
      unfold onannounce, onunannounce, onmutableput, onimmutableput;
      rewrite Htoken; destruct (req_target req); reflexivity.
  - destruct c; try discriminate Hwants; cbn;
      unfold onannounce, onunannounce, onmutableget, onmutableput, onimmutableput;
      rewrite Hvalue; destruct (req_target req); try reflexivity;
      destruct (req_token req); reflexivity.
  - destruct Hc as [-> | ->]; cbn; unfold onannounce, onunannounce;
      rewrite Hvalue; cbn; rewrite Hparse;
      destruct (req_target req); try reflexivity;
      destruct (req_token req); reflexivity.
  - cbn. unfold onmutableget. rewrite Hvalue, Hparse.
    destruct (req_target req); reflexivity.
  - cbn. unfold onmutableput. rewrite Hvalue. cbn. rewrite Hparse.
    destruct (req_target req); try reflexivity.
    destruct (req_token req); reflexivity.
  - cbn. unfold onannounce. rewrite Htarget, Htoken, Hvalue. cbn.
    rewrite Hparse, (annSignable_peer _ _ _ _ _ _ Hpeer), Hpeer.
    unfold verifies in Hbad. rewrite Hbad. reflexivity.
  - cbn. unfold onunannounce. rewrite Htarget, Htoken, Hvalue. cbn.
    rewrite Hparse, Hpeer. unfold verifies in Hbad.
    destruct (signature unann) as [sig|]; [|reflexivity].
    rewrite (annSignable_peer _ _ _ _ _ _ Hpeer), Hbad. reflexivity.
  - cbn. unfold onmutableput. rewrite Hvalue. cbn. rewrite Hparse, Hval, Hbad.
    destruct (req_target req); try reflexivity.
    destruct (req_token req); try reflexivity.
    destruct (negb _); reflexivity.
  - cbn. unfold onmutableput. rewrite Htarget, Hvalue. cbn. rewrite Hparse.
    destruct (req_token req); try reflexivity.
    rewrite bool_decide_eq_false_2 by assumption. reflexivity.
  - cbn. unfold onimmutableput. rewrite Htarget, Hvalue.
    destruct (req_token req); try reflexivity.
    rewrite bool_decide_eq_false_2 by assumption. reflexivity.
Qed.

(** An announce without a peer: [annSignable] runs before the handler
    looks at the peer, so that the handler throws when the encoding of the
    absent peer does, and otherwise refreshes or drops. *)
Lemma onannounce_without_peer s req target token ann :
  req_target req = Some target →
  req_token req = Some token →
  decode decode_announce (req_value req) = Some ann →
  peer ann = None →
  onannounce s req
  = match encode_peer_null, refresh ann with
    | None, _ => (s, Thrown)
    | Some _, None => (s, Dropped)
    | Some _, Some t => _onrefresh s t req
    end.
Proof.
  intros Htarget Htoken Hdecode Hpeer. unfold onannounce, annSignable.
  rewrite Htarget, Htoken, Hdecode, Hpeer.
  destruct encode_peer_null; reflexivity.
Qed.

(** C8, on the code. No handler of the store ever answers a request with a
    typed error: a mutable put in conflict with the stored record is not
    answered with SEQ_REUSED or SEQ_TOO_LOW. *)
Theorem store_never_sends_typed_error c s req code :
  snd (onrequest c s req) ≠ Errored code.
Proof.
  destruct c; cbn.
  - unfold onlookup. destruct (req_target req); discriminate.
  - unfold onfindpeer. destruct (req_target req); discriminate.
  - unfold onannounce, _onrefresh. repeat case_match; discriminate.
  - unfold onunannounce. repeat case_match; discriminate.
  - unfold onmutableget. repeat case_match; discriminate.
  - unfold onmutableput.
    repeat (rewrite seq_reused_false || rewrite seq_too_low_false).
    repeat case_match; discriminate.
  - unfold onimmutableget. destruct (req_target req); discriminate.
  - unfold onimmutableput. repeat case_match; discriminate.
Qed.

End Policy.

(** * Properties of the connection attempt *)

Section Veto.
Import Connect.
Variable e : Setting.
Hypothesis server_vetoes : server_permits e = false.

(** Case analysis on a step: on the label and the phase, then on the two
    punchers and on what the client's hook says. *)
Local Ltac bools :=
  repeat match goal with
         | Hb : _ && _ = true |- _ => apply andb_prop in Hb as [? ?]
         | Hb : _ || _ = true |- _ => apply orb_prop in Hb as [?|?]
         | Hb : bool_decide _ = true |- _ => apply bool_decide_eq_true_1 in Hb
         end.

Local Ltac step_cases a l Hinv Hstep :=
  unfold vetoed_invariant in Hinv;
  destruct a as [ph c s ev n]; cbn in Hinv;
  destruct l, ph; try discriminate Hstep; bools; subst;
  try discriminate;
  unfold step in Hstep; cbn [phase client server events connections] in Hstep;
  try rewrite server_vetoes in Hstep;
  repeat match goal with
         | x : option Puncher |- _ => destruct x as [[]|]; try discriminate
         end;
  try destruct (client_permits e);
  vm_compute in Hstep; try discriminate Hstep;
  injection Hstep as <-.

Lemma vetoed_invariant_idle : vetoed_invariant idle = true.
Proof. reflexivity. Qed.

Lemma advance_waiting p p' : advance p = Some p' → waiting p' = true.
Proof. destruct p as [[]|]; cbn; intros [= <-]; reflexivity. Qed.

Lemma advance_rank p p' : advance p = Some p' → (rank p' < rank p)%nat.
Proof. destruct p as [[]|]; cbn; intros [= <-]; cbn; lia. Qed.

Lemma vetoed_invariant_step l a a' :
  vetoed_invariant a = true → step e l a = Some a' → vetoed_invariant a' = true.
Proof.
  intros Hinv Hstep. step_cases a l Hinv Hstep; reflexivity.
Qed.

Lemma vetoed_invariant_run ls : ∀ a a',
  vetoed_invariant a = true → run e ls a = Some a' → vetoed_invariant a' = true.
Proof.
  induction ls as [|l ls IH]; intros a a' Hinv Hrun; cbn in Hrun.
  - injection Hrun as <-. exact Hinv.
  - destruct (step e l a) as [a1|] eqn:Hstep; [|discriminate]. cbn in Hrun.
    exact (IH _ _ (vetoed_invariant_step _ _ _ Hinv Hstep) Hrun).
Qed.

(** Each step uses up one of the steps left. *)
Lemma steps_left_step l a a' :
  vetoed_invariant a = true → step e l a = Some a' →
  (steps_left a' < steps_left a)%nat.
Proof.
  intros Hinv Hstep. step_cases a l Hinv Hstep; cbn; lia.
Qed.

(** An attempt that is not closed can go on. *)
Lemma vetoed_progress a :
  vetoed_invariant a = true → phase a ≠ CLOSED → ∃ l a', step e l a = Some a'.
Proof.
  intros Hinv Hopen. unfold vetoed_invariant in Hinv.
  apply andb_prop in Hinv as [_ Hinv].
  destruct a as [ph c s ev n]. cbn in *.
  destruct ph; try discriminate; try contradiction.
  - exists Start. eexists. reflexivity.
  - exists Found. eexists. reflexivity.
  - exists Relayed. eexists. reflexivity.
  - repeat (apply andb_prop in Hinv as [Hinv ?]).
    destruct s as [[]|]; try discriminate.
    + exists ServerAdvance. eexists. reflexivity.
    + exists ServerAdvance. eexists. reflexivity.
    + exists ServerHook. eexists. cbn. rewrite server_vetoes. reflexivity.
    + exists Abort. eexists. cbn. rewrite orb_true_r. reflexivity.
Qed.

Lemma closed_is_final l a : phase a = CLOSED → step e l a = None.
Proof. intros Hclosed. unfold step. rewrite Hclosed. destruct l; reflexivity. Qed.

Lemma run_length_bounded ls : ∀ a a',
  vetoed_invariant a = true → run e ls a = Some a' →
  (length ls + steps_left a' ≤ steps_left a)%nat.
Proof.
  induction ls as [|l ls IH]; intros a a' Hinv Hrun; cbn in Hrun.
  - injection Hrun as <-. cbn. lia.
  - destruct (step e l a) as [a1|] eqn:Hstep; [|discriminate]. cbn in Hrun.
    pose proof (steps_left_step _ _ _ Hinv Hstep).
    pose proof (IH _ _ (vetoed_invariant_step _ _ _ Hinv Hstep) Hrun).
    cbn. lia.
Qed.

(** C9. When the hook of the server returns false, then in every run of a
    connection attempt the server's onConnection has not fired and the
    client's Socket has not opened; a run takes at most ten steps, an
    attempt that is not closed can always go on, and a closed one cannot;
    an attempt that reached the server and is closed has emitted, on the
    client's Socket, an error with code HOLEPUNCH_ABORTED and then close,
    and nothing else. The run in which the server's hook is asked and the
    relay forwards the veto is such a run. *)
Theorem server_veto_aborts_holepunch ls a :
  run e ls idle = Some a →
  connections a = 0%nat
  ∧ (open ∉ events a)
  ∧ (length ls ≤ 10)%nat
  ∧ (phase a ≠ CLOSED → ∃ l a', step e l a = Some a')
  ∧ (phase a = CLOSED →
       (∀ l, step e l a = None)
       ∧ (server a ≠ None → events a = [error HOLEPUNCH_ABORTED; close]))
  ∧ ∃ a', run e veto_run idle = Some a'
          ∧ phase a' = CLOSED ∧ server a' ≠ None.
Proof.
  intros Hrun.
  pose proof (vetoed_invariant_run _ _ _ vetoed_invariant_idle Hrun) as Hinv.
  pose proof (run_length_bounded _ _ _ vetoed_invariant_idle Hrun) as Hlen.
  pose proof (vetoed_progress _ Hinv) as Hprogress.
  unfold vetoed_invariant in Hinv.
  apply andb_prop in Hinv as [Hconn Hinv].
  apply bool_decide_eq_true_1 in Hconn.
  split; [exact Hconn|]. split; [|split; [|split; [|split]]].
  - destruct (phase a);
      repeat match goal with
             | Hb : _ && _ = true |- _ => apply andb_prop in Hb as [? ?]
             | Hb : _ || _ = true |- _ => apply orb_prop in Hb as [?|?]
             | Hb : bool_decide _ = true |- _ => apply bool_decide_eq_true_1 in Hb
             end;
      try discriminate;
      match goal with
      | Hev : events a = _ |- _ => rewrite Hev
      end;
      intros Hin; repeat (apply elem_of_cons in Hin as [Hin|Hin]; [discriminate|]);
      apply elem_of_nil in Hin; exact Hin.
  - cbn in Hlen. lia.
  - exact Hprogress.
  - intros Hclosed. split; [intros l; apply closed_is_final; exact Hclosed|].
    intros Hserver. rewrite Hclosed in Hinv.
    apply orb_prop in Hinv as [Hinv|Hinv]; apply andb_prop in Hinv as [Hs Hev];
      apply bool_decide_eq_true_1 in Hs, Hev; [contradiction|exact Hev].
  - eexists. split; [|split].
    + unfold veto_run. cbn. rewrite server_vetoes. cbn. reflexivity.
    + reflexivity.
    + discriminate.
Qed.

End Veto.

(** * More on the store *)

(** ** Values: what a reply means, and put followed by get *)

Section MoreValues.
Context `{Sodium, Messages, Sampler}.

(** Setting a cache to what it holds gives the store back. *)
Lemma set_records_same s : set_records (records s) s = s.
Proof. destruct s; reflexivity. Qed.

Lemma set_router_same s : set_router (_router (dht s)) s = s.
Proof. destruct s as [[] ? ? ? ?]; reflexivity. Qed.

(** The two ways a mutable put can go. *)
Lemma onmutableput_cases s req :
  (∃ target token p value,
     req_target req = Some target
     ∧ req_token req = Some token
     ∧ decode decode_mutablePutRequest (req_value req) = Some p
     ∧ crypto_generichash (put_publicKey p) None = target
     ∧ put_value p = Some value
     ∧ verifyMutable (put_signature p) (put_seq p) value (put_publicKey p) = true
     ∧ onmutableput s req
       = (set_mutables (<[hex target := stored_put p value]> (mutables s)) s,
          Replied None None))
  ∨ (fst (onmutableput s req) = s
     ∧ (snd (onmutableput s req) = Dropped ∨ snd (onmutableput s req) = Thrown)).
Proof.
  unfold onmutableput.
  destruct (req_target req) as [target|] eqn:Htarget; [|right; auto].
  destruct (req_token req) as [token|] eqn:Htoken; [|right; auto].
  destruct (req_value req) as [v|] eqn:Hvalue; [|right; auto].
  destruct (decode decode_mutablePutRequest (Some v)) as [p|] eqn:Hdecode;
    [|right; auto].
  case_bool_decide as Hhash; cbn [negb]; [|right; auto].
  destruct (put_value p) as [value|] eqn:Hval; [|right; auto].
  destruct (verifyMutable _ _ _ _) eqn:Hverify; cbn [negb]; [|right; auto].
  rewrite Hhash.
  assert (∃ target0 token0 p0 value0,
            Some target = Some target0 ∧ Some token = Some token0
            ∧ Some p = Some p0
            ∧ crypto_generichash (put_publicKey p0) None = target0
            ∧ put_value p0 = Some value0
            ∧ verifyMutable (put_signature p0) (put_seq p0) value0
                (put_publicKey p0) = true
            ∧ (set_mutables (<[hex target := stored_put p value]> (mutables s)) s,
               Replied None None)
              = (set_mutables
                   (<[hex target0 := stored_put p0 value0]> (mutables s)) s,
                 Replied None None)) as Hstored
    by (exists target, token, p, value; repeat split; assumption).
  destruct (mutables s !! hex target) as [local|]; [|left; exact Hstored].
  destruct (encode_mutableGetResponse_Buffer local); [|right; auto].
  rewrite seq_reused_false, seq_too_low_false. left. exact Hstored.
Qed.


(** A mutable put that was answered, followed by a mutable get for the same
    target that asks for seq [seq]: the get is answered with the record
    just stored when [seq] is at most the seq of the put, and with null
    when it is greater. (The record begins with its seq, which is what the
    get decodes.) *)
Theorem mutable_put_then_get s put p value get v seq o :
  decode decode_mutablePutRequest (req_value put) = Some p →
  put_value p = Some value →
  snd (onmutableput s put) = Replied None o →
  decode_uint (stored_put p value) = Some (put_seq p) →
  req_target get = req_target put →
  req_value get = Some v →
  decode_uint v = Some seq →
  snd (onmutableget (fst (onmutableput s put)) get)
  = Replied (if bool_decide (seq ≤ put_seq p)%N
             then Some (stored_put p value) else None) None.
Proof.
  intros Hdecode Hval Hreplied Hseq Hsame Hv Hrequested.
  destruct (onmutableput_cases s put)
    as [(target & token & p' & value' & Htarget & _ & Hdecode' & _ & Hval' & _ & Hrun)
       |[_ [Hout|Hout]]];
    [|rewrite Hout in Hreplied; discriminate..].
  rewrite Hdecode in Hdecode'. injection Hdecode' as <-.
  rewrite Hval in Hval'. injection Hval' as <-.
  rewrite Hrun. cbn [fst]. unfold onmutableget.
  rewrite Hsame, Htarget, Hv, Hrequested. cbn [mutables set_mutables].
  rewrite lookup_insert_eq, Hseq.
  destruct (N.ltb_spec (put_seq p) seq) as [Hlt|Hge].
  - rewrite bool_decide_eq_false_2 by lia. reflexivity.
  - rewrite bool_decide_eq_true_2 by lia. reflexivity.
Qed.

(** A mutable get for a target under which nothing is stored is answered
    with null, whatever seq it asks for; a store that was just constructed
    answers every mutable and immutable get so. *)
Lemma get_of_missing_key_is_null s req target :
  req_target req = Some target →
  (∀ v seq, req_value req = Some v → decode_uint v = Some seq →
            mutables s !! hex target = None →
            onmutableget s req = (s, Replied None None))
  ∧ (immutables s !! hex target = None →
       onimmutableget s req = (s, Replied None None))
  ∧ (∀ node v seq, req_value req = Some v → decode_uint v = Some seq →
       onmutableget (constructor node) req = (constructor node, Replied None None))
  ∧ (∀ node, onimmutableget (constructor node) req
             = (constructor node, Replied None None)).
Proof.
  intros Htarget. split; [|split; [|split]].
  - intros v seq Hv Hseq Hnone. unfold onmutableget.
    rewrite Htarget, Hv, Hseq, Hnone. reflexivity.
  - intros Hnone. unfold onimmutableget. rewrite Htarget. cbn.
    rewrite Hnone. reflexivity.
  - intros node v seq Hv Hseq. unfold onmutableget.
    rewrite Htarget, Hv, Hseq. cbn. rewrite lookup_empty. reflexivity.
  - intros node. unfold onimmutableget. rewrite Htarget. cbn.
    rewrite lookup_empty. reflexivity.
Qed.

(** An immutable put whose value hashes to its target, followed by an
    immutable get for the target: the get is answered with the value. The
    same put once more is answered again and leaves the store as the first
    left it. *)
Theorem immutable_put_then_get s put target token value get :
  req_target put = Some target →
  req_token put = Some token →
  req_value put = Some value →
  crypto_generichash value None = target →
  req_target get = Some target →
  let s' := fst (onimmutableput s put) in
  onimmutableget s' get = (s', Replied (Some value) None)
  ∧ onimmutableput s' put = (s', Replied None None).
Proof.
  intros Htarget Htoken Hvalue Hhash Hget s'.
  assert (∀ s0, onimmutableput s0 put
                = (set_immutables (<[hex target := value]> (immutables s0)) s0,
                   Replied None None)) as Hput.
  { intros s0. unfold onimmutableput. rewrite Htarget, Htoken, Hvalue.
    rewrite bool_decide_eq_true_2 by assumption. rewrite Hhash. reflexivity. }
  subst s'. rewrite !Hput. cbn [fst]. split.
  - unfold onimmutableget. rewrite Hget. cbn. rewrite lookup_insert_eq.
    reflexivity.
  - cbn. unfold set_immutables. cbn. rewrite insert_insert_eq. reflexivity.
Qed.

(** An immutable put changes the store, if at all, by a value under its
    target in [immutables]. *)
Lemma onimmutableput_state s put :
  fst (onimmutableput s put) = s
  ∨ ∃ target value,
      req_target put = Some target
      ∧ fst (onimmutableput s put)
        = set_immutables (<[hex target := value]> (immutables s)) s.
Proof.
  unfold onimmutableput.
  destruct (req_target put) as [target|]; [|left; reflexivity].
  destruct (req_token put); [|left; reflexivity].
  destruct (req_value put) as [value|]; [|left; reflexivity].
  case_bool_decide as Hhash; cbn [negb]; [|left; reflexivity].
  right. exists target, value. rewrite Hhash. split; reflexivity.
Qed.

End MoreValues.

(** ** Announces: how they compose with each other and with lookups *)

Section MoreAnnounce.
Context `{Sodium, Messages, Sampler}.

Lemma RecordCache_add_add (c : RecordCache.t) name key v1 v2 :
  RecordCache.add name key v2 (RecordCache.add name key v1 c)
  = RecordCache.add name key v2 c.
Proof.
  unfold RecordCache.add, RecordCache.entries.
  rewrite lookup_insert_eq. cbn. rewrite !insert_insert_eq. reflexivity.
Qed.

Lemma RecordCache_remove_remove (c : RecordCache.t) name key :
  RecordCache.remove name key (RecordCache.remove name key c)
  = RecordCache.remove name key c.
Proof.
  apply RecordCache_remove_absent, RecordCache_lookup_remove.
Qed.

Lemma RecordCache_entries_remove_ne (c : RecordCache.t) name key name' :
  name ≠ name' →
  RecordCache.entries (RecordCache.remove name key c) name'
  = RecordCache.entries c name'.
Proof.
  intros Hne. unfold RecordCache.entries, RecordCache.remove.
  rewrite lookup_alter_ne by assumption. reflexivity.
Qed.

(** A record that was added is among the values of its name. *)
Lemma RecordCache_values_add (c : RecordCache.t) name key v :
  v ∈ RecordCache.values (RecordCache.add name key v c) name.
Proof.
  unfold RecordCache.values, RecordCache.add, RecordCache.entries.
  rewrite lookup_insert_eq. cbn.
  apply list_elem_of_fmap. exists (key, v). split; [reflexivity|].
  apply elem_of_map_to_list, lookup_insert_eq.
Qed.

(** The parts of the store after an announce was taken. *)
Lemma announced_id s req target ann p :
  id (dht (announced s req target ann p)) = id (dht s).
Proof.
  unfold announced. case_bool_decide; destruct (refresh ann); reflexivity.
Qed.

Lemma announced_router s req target ann p :
  _router (dht (announced s req target ann p))
  = if bool_decide (crypto_generichash (publicKey p) None = target)
    then <[hex target := forward req (encode_peer (truncate p))]> (_router (dht s))
    else _router (dht s).
Proof.
  unfold announced. rewrite truncate_publicKey.
  case_bool_decide; destruct (refresh ann); reflexivity.
Qed.

Lemma announced_records s req target ann p :
  records (announced s req target ann p)
  = if bool_decide (crypto_generichash (publicKey p) None = target)
    then RecordCache.remove (hex target) (publicKey p) (records s)
    else RecordCache.add (hex target) (publicKey p) (encode_peer (truncate p))
           (records s).
Proof.
  unfold announced. rewrite truncate_publicKey.
  case_bool_decide; destruct (refresh ann); reflexivity.
Qed.

Lemma announced_refreshes s req target ann p :
  refreshes (announced s req target ann p)
  = match refresh ann with
    | Some r =>
        <[hex r := {| k := hex target;
                      refresh_record := encode_peer (truncate p);
                      announceSelf :=
                        bool_decide (crypto_generichash (publicKey p) None = target) |}]>
          (refreshes s)
    | None => refreshes s
    end.
Proof.
  unfold announced. rewrite truncate_publicKey.
  case_bool_decide; destruct (refresh ann); reflexivity.
Qed.

(** Whether a signature verifies depends on the store only through the id
    of the node. *)
Lemma verifies_id s s' target token ann p ns :
  id (dht s') = id (dht s) →
  verifies s' target token ann p ns = verifies s target token ann p ns.
Proof. intros Hid. unfold verifies. rewrite Hid. reflexivity. Qed.

(** What a lookup and a findPeer are answered with depends on the store
    only through what the LRU and the Router hold for their target. *)
Lemma onlookup_depends s1 s2 req :
  (∀ target, req_target req = Some target →
     RecordCache.entries (records s1) (hex target)
     = RecordCache.entries (records s2) (hex target)
     ∧ _router (dht s1) !! hex target = _router (dht s2) !! hex target) →
  snd (onlookup s1 req) = snd (onlookup s2 req).
Proof.
  intros Hsame. unfold onlookup.
  destruct (req_target req) as [target|]; [|reflexivity].
  destruct (Hsame target eq_refl) as [Hentries Hrouter].
  unfold RecordCache.get, RecordCache.values, Router.get. cbn.
  rewrite Hentries, Hrouter. reflexivity.
Qed.

Lemma onfindpeer_depends s1 s2 req :
  (∀ target, req_target req = Some target →
     _router (dht s1) !! hex target = _router (dht s2) !! hex target) →
  snd (onfindpeer s1 req) = snd (onfindpeer s2 req).
Proof.
  intros Hsame. unfold onfindpeer.
  destruct (req_target req) as [target|]; [|reflexivity].
  unfold Router.get. cbn. rewrite (Hsame target eq_refl). reflexivity.
Qed.

(** The list a lookup is answered with. *)
Lemma onlookup_reply s req target :
  req_target req = Some target →
  let lru := RecordCache.get (records s) (hex target) 20 in
  let own :=
    match _router (dht s) !! hex target with
    | Some fwd => if bool_decide (length lru < 20)%nat then [record fwd] else []
    | None => []
    end in
  snd (onlookup s req)
  = Replied (match lru ++ own with
             | [] => None
             | _ :: _ => Some (encode_rawArray (lru ++ own))
             end) None.
Proof.
  intros Htarget lru own. unfold onlookup. rewrite Htarget. cbn zeta.
  unfold Router.get. cbn [Router.toString snd]. fold lru.
  set (found := match _router (dht s) !! hex target with
                | Some _ => _ | None => lru end).
  assert (found = lru ++ own) as ->.
  { subst found own. destruct (_router (dht s) !! hex target);
      [case_bool_decide|]; rewrite ?app_nil_r; reflexivity. }
  destruct (lru ++ own); reflexivity.
Qed.

(** Two announces of the same key for the target the key hashes to, each
    with a signature that verifies, one after the other: the second is
    answered; the Router then holds the record of the second with the
    sender of the second as relay, and the Router and the LRU are as if
    only the second had been made; a findPeer for the target is answered
    with the later record. *)
Theorem reannounce_self_replaces
    s req1 req2 target token1 token2 ann1 ann2 p1 p2 findpeer :
  req_target req1 = Some target →
  req_token req1 = Some token1 →
  decode decode_announce (req_value req1) = Some ann1 →
  peer ann1 = Some p1 →
  verifies s target token1 ann1 p1 NS_ANNOUNCE = true →
  req_target req2 = Some target →
  req_token req2 = Some token2 →
  decode decode_announce (req_value req2) = Some ann2 →
  peer ann2 = Some p2 →
  verifies s target token2 ann2 p2 NS_ANNOUNCE = true →
  publicKey p1 = publicKey p2 →
  crypto_generichash (publicKey p2) None = target →
  req_target findpeer = Some target →
  let s1 := fst (onannounce s req1) in
  let s12 := fst (onannounce s1 req2) in
  snd (onannounce s1 req2) = Replied None bare
  ∧ _router (dht s12) !! hex target
    = Some (forward req2 (encode_peer (truncate p2)))
  ∧ _router (dht s12) = _router (dht (fst (onannounce s req2)))
  ∧ records s12 = records (fst (onannounce s req2))
  ∧ snd (onfindpeer s12 findpeer)
    = Replied (Some (encode_peer (truncate p2))) None.
Proof.
  intros Ht1 Hk1 Hd1 Hp1 Hv1 Ht2 Hk2 Hd2 Hp2 Hv2 Hkey Hself Hfind s1 s12.
  subst s12 s1.
  rewrite (onannounce_with_peer _ _ _ _ _ _ Ht1 Hk1 Hd1 Hp1), Hv1. cbn [fst].
  rewrite !(onannounce_with_peer _ _ _ _ _ _ Ht2 Hk2 Hd2 Hp2).
  rewrite (verifies_id s) by apply announced_id.
  rewrite Hv2. cbn [fst snd]. split; [reflexivity|].
  assert (_router (dht (announced (announced s req1 target ann1 p1)
                          req2 target ann2 p2))
          = <[hex target := forward req2 (encode_peer (truncate p2))]>
              (_router (dht s))) as Hrouter.
  { rewrite !announced_router, Hkey.
    rewrite !bool_decide_eq_true_2 by exact Hself.
    apply insert_insert_eq. }
  split; [rewrite Hrouter; apply lookup_insert_eq|].
  split; [rewrite Hrouter, announced_router,
            bool_decide_eq_true_2 by exact Hself; reflexivity|].
  split.
  - rewrite !announced_records, Hkey.
    rewrite !bool_decide_eq_true_2 by exact Hself.
    apply RecordCache_remove_remove.
  - unfold onfindpeer. rewrite Hfind. unfold Router.get.
    cbn [Router.toString snd]. rewrite Hrouter, lookup_insert_eq. reflexivity.
Qed.

(** An announce with a signature that verifies, followed by a lookup for
    its target: the lookup is answered with a list that holds the announced
    record, when the LRU holds at most 20 records for the target (for the
    announce of a key that hashes to the target, which goes to the Router:
    fewer than 20). *)
Theorem announce_then_lookup s req target token ann p lookup :
  req_target req = Some target →
  req_token req = Some token →
  decode decode_announce (req_value req) = Some ann →
  peer ann = Some p →
  verifies s target token ann p NS_ANNOUNCE = true →
  req_target lookup = Some target →
  let s' := fst (onannounce s req) in
  let stored := length (RecordCache.values (records s') (hex target)) in
  (if bool_decide (crypto_generichash (publicKey p) None = target)
   then stored < 20 else stored ≤ 20)%nat →
  ∃ found,
    snd (onlookup s' lookup) = Replied (Some (encode_rawArray found)) None
    ∧ encode_peer (truncate p) ∈ found.
Proof.
  intros Htarget Htoken Hdecode Hpeer Hverifies Hlookup s' stored Hroom.
  subst stored s'.
  rewrite (onannounce_with_peer _ _ _ _ _ _ Htarget Htoken Hdecode Hpeer),
    Hverifies in *.
  cbn [fst] in *.
  set (s' := announced s req target ann p) in *.
  pose proof (onlookup_reply s' lookup target Hlookup) as Hreply.
  cbv zeta in Hreply.
  set (lru := RecordCache.get (records s') (hex target) 20) in *.
  assert (lru ≡ₚ RecordCache.values (records s') (hex target)) as Hall.
  { apply pick_all. destruct (bool_decide _) in Hroom; lia. }
  rewrite Hreply. clear Hreply.
  set (own := match _router (dht s') !! hex target with
              | Some _ => _ | None => _ end).
  assert (encode_peer (truncate p) ∈ lru ++ own) as Hin.
  { subst own s'. rewrite announced_router. rewrite announced_records in *.
    case_bool_decide as Hself.
    - rewrite lookup_insert_eq.
      rewrite bool_decide_eq_true_2 by (rewrite Hall; exact Hroom).
      apply elem_of_app. right. apply list_elem_of_singleton. reflexivity.
    - apply elem_of_app. left. rewrite Hall. apply RecordCache_values_add. }
  exists (lru ++ own). split; [|exact Hin].
  destruct (lru ++ own); [|reflexivity].
  apply elem_of_nil in Hin. contradiction.
Qed.

End MoreAnnounce.

(** ** What the handlers leave alone *)

Section Frames.
Context `{Sodium, Messages, Sampler}.

(** The parts of the store after [unannounce]. *)
Lemma unannounce_router s target publicKey :
  _router (dht (unannounce s target publicKey))
  = if bool_decide (crypto_generichash publicKey None = target)
    then delete (hex target) (_router (dht s))
    else _router (dht s).
Proof. unfold unannounce. case_bool_decide; reflexivity. Qed.

Lemma unannounce_records s target publicKey :
  records (unannounce s target publicKey)
  = RecordCache.remove (hex target) publicKey (records s).
Proof. unfold unannounce. case_bool_decide; reflexivity. Qed.

Lemma unannounce_rest s target publicKey :
  id (dht (unannounce s target publicKey)) = id (dht s)
  ∧ refreshes (unannounce s target publicKey) = refreshes s
  ∧ mutables (unannounce s target publicKey) = mutables s
  ∧ immutables (unannounce s target publicKey) = immutables s.
Proof. unfold unannounce. case_bool_decide; repeat split; reflexivity. Qed.

(** An unannounce changes the store, if at all, by [unannounce] of its
    target and a key. *)
Lemma onunannounce_state s req :
  fst (onunannounce s req) = s
  ∨ ∃ target publicKey,
      req_target req = Some target
      ∧ fst (onunannounce s req) = unannounce s target publicKey.
Proof.
  unfold onunannounce.
  destruct (req_target req) as [target|]; [|left; reflexivity].
  destruct (req_token req); [|left; reflexivity].
  destruct (decode decode_announce (req_value req)) as [unann|];
    [|left; reflexivity].
  destruct (peer unann) as [p|]; [|left; reflexivity].
  destruct (signature unann); [|left; reflexivity].
  destruct (annSignable _ _ _ _ _); [|left; reflexivity].
  destruct (crypto_sign_verify_detached _ _ _); cbn [negb]; [|left; reflexivity].
  right. exists target, (publicKey p). split; reflexivity.
Qed.

(** An announce that carries a peer changes the store, if at all, to
    [announced]. *)
Lemma onannounce_state s req ann p :
  decode decode_announce (req_value req) = Some ann →
  peer ann = Some p →
  fst (onannounce s req) = s
  ∨ ∃ target,
      req_target req = Some target
      ∧ fst (onannounce s req) = announced s req target ann p.
Proof.
  intros Hdecode Hpeer.
  destruct (req_target req) as [target|] eqn:Htarget;
    [|left; unfold onannounce; rewrite Htarget; reflexivity].
  destruct (req_token req) as [token|] eqn:Htoken;
    [|left; unfold onannounce; rewrite Htarget, Htoken; reflexivity].
  rewrite (onannounce_with_peer _ _ _ _ _ _ Htarget Htoken Hdecode Hpeer).
  destruct (verifies _ _ _ _ _ _); [|left; reflexivity].
  right. exists target. split; reflexivity.
Qed.

Lemma hex_other (target target' : Buffer) :
  Some target' ≠ Some target → hex target ≠ hex target'.
Proof.
  intros Hne Heq. apply Hne. f_equal. symmetry. exact (inj hex _ _ Heq).
Qed.

(** An unannounce for one target does not change what a lookup or a
    findPeer for another target is answered with. *)
Theorem unannounce_leaves_other_targets s req other :
  req_target other ≠ req_target req →
  snd (onlookup (fst (onunannounce s req)) other) = snd (onlookup s other)
  ∧ snd (onfindpeer (fst (onunannounce s req)) other) = snd (onfindpeer s other).
Proof.
  intros Hother.
  assert (∀ target', req_target other = Some target' →
            RecordCache.entries (records (fst (onunannounce s req))) (hex target')
            = RecordCache.entries (records s) (hex target')
            ∧ _router (dht (fst (onunannounce s req))) !! hex target'
              = _router (dht s) !! hex target') as Hframe.
  { intros target' Htarget'. rewrite Htarget' in Hother.
    destruct (onunannounce_state s req) as [->|(target & pk & Htarget & ->)];
      [split; reflexivity|].
    rewrite Htarget in Hother. apply hex_other in Hother.
    rewrite unannounce_records, unannounce_router. split.
    - apply RecordCache_entries_remove_ne. exact Hother.
    - case_bool_decide; [apply lookup_delete_ne; exact Hother|reflexivity]. }
  split.
  - apply onlookup_depends, Hframe.
  - apply onfindpeer_depends. intros target' Htarget'.
    apply (Hframe target' Htarget').
Qed.

(** [unannounce] of a key that has no record under the target in the LRU,
    and whose target has no entry in the Router, leaves the store as it
    is; and [unannounce] a second time changes nothing more. *)
Theorem unannounce_twice_or_of_nothing s target publicKey :
  (RecordCache.lookup (records s) (hex target) publicKey = None →
   _router (dht s) !! hex target = None →
   unannounce s target publicKey = s)
  ∧ unannounce (unannounce s target publicKey) target publicKey
    = unannounce s target publicKey.
Proof.
  assert (∀ s0, RecordCache.lookup (records s0) (hex target) publicKey = None →
                (crypto_generichash publicKey None = target →
                 _router (dht s0) !! hex target = None) →
                unannounce s0 target publicKey = s0) as Hnothing.
  { intros s0 Hrecord Hrouter. unfold unannounce.
    case_bool_decide as Hself.
    - unfold Router.delete. cbn [Router.toString].
      rewrite delete_id by (apply Hrouter; exact Hself).
      rewrite set_router_same, (RecordCache_remove_absent _ _ _ Hrecord).
      apply set_records_same.
    - rewrite (RecordCache_remove_absent _ _ _ Hrecord). apply set_records_same. }
  split.
  - intros Hrecord Hrouter. apply Hnothing; [exact Hrecord|intros _; exact Hrouter].
  - apply Hnothing.
    + rewrite unannounce_records. apply RecordCache_lookup_remove.
    + intros Hself. rewrite unannounce_router.
      rewrite bool_decide_eq_true_2 by exact Hself. apply lookup_delete_eq.
Qed.

(** The handlers that only read return the store they were given. *)
Lemma read_handlers_change_nothing_body s req :
  fst (onlookup s req) = s
  ∧ fst (onfindpeer s req) = s
  ∧ fst (onmutableget s req) = s
  ∧ fst (onimmutableget s req) = s.
Proof.
  unfold onlookup, onfindpeer, onmutableget, onimmutableget.
  destruct (req_target req) as [target|]; repeat split;
    repeat case_match; reflexivity.
Qed.

(** The handlers that only read: a lookup, a findPeer, a mutable get and an
    immutable get leave the store as it is, whatever the request; and a
    lookup, a findPeer and an immutable get with a target are always
    answered. *)
Theorem read_handlers_change_nothing s req :
  fst (onlookup s req) = s
  ∧ fst (onfindpeer s req) = s
  ∧ fst (onmutableget s req) = s
  ∧ fst (onimmutableget s req) = s
  ∧ (req_target req ≠ None →
       (∃ v, snd (onlookup s req) = Replied v None)
       ∧ (∃ v, snd (onfindpeer s req) = Replied v None)
       ∧ (∃ v, snd (onimmutableget s req) = Replied v None)).
Proof.
  destruct (read_handlers_change_nothing_body s req) as (H1' & H2' & H3' & H4').
  repeat (split; [assumption|]).
  unfold onlookup, onfindpeer, onimmutableget.
  destruct (req_target req) as [target|]; [|congruence].
  intros _. repeat split; eexists; reflexivity.
Qed.

(** What each handler that writes can touch: a mutable put nothing but
    [mutables]; an immutable put nothing but [immutables]; an announce (a
    refresh too) and an unannounce neither of the two; an unannounce not
    [refreshes] either; and none of them the id of the node. *)
Theorem write_handlers_footprint s req :
  (let s' := fst (onmutableput s req) in
   dht s' = dht s ∧ records s' = records s ∧ refreshes s' = refreshes s
   ∧ immutables s' = immutables s)
  ∧ (let s' := fst (onimmutableput s req) in
     dht s' = dht s ∧ records s' = records s ∧ refreshes s' = refreshes s
     ∧ mutables s' = mutables s)
  ∧ (let s' := fst (onannounce s req) in
     id (dht s') = id (dht s) ∧ mutables s' = mutables s
     ∧ immutables s' = immutables s)
  ∧ (let s' := fst (onunannounce s req) in
     id (dht s') = id (dht s) ∧ refreshes s' = refreshes s
     ∧ mutables s' = mutables s ∧ immutables s' = immutables s).
Proof.
  split; [|split; [|split]]; cbv zeta.
  - destruct (onmutableput_cases s req)
      as [(target & token & p & value & _ & _ & _ & _ & _ & _ & ->)|[-> _]];
      repeat split; reflexivity.
  - destruct (onimmutableput_state s req) as [->|(target & value & _ & ->)];
      repeat split; reflexivity.
  - unfold onannounce, _onrefresh.
    repeat case_match; repeat split; reflexivity.
  - destruct (onunannounce_state s req) as [->|(target & pk & _ & ->)];
      [repeat split; reflexivity|].
    apply unannounce_rest.
Qed.

(** A peer with at most three relay addresses is stored as it was sent:
    after its announce with a signature that verifies, for the target its
    key hashes to, a findPeer for the target is answered with the encoding
    of the very peer that was announced. *)
Theorem short_address_list_stored_unchanged s req target token ann p findpeer :
  req_target req = Some target →
  req_token req = Some token →
  decode decode_announce (req_value req) = Some ann →
  peer ann = Some p →
  verifies s target token ann p NS_ANNOUNCE = true →
  crypto_generichash (publicKey p) None = target →
  (length (relayAddresses p) ≤ 3)%nat →
  req_target findpeer = Some target →
  snd (onfindpeer (fst (onannounce s req)) findpeer)
  = Replied (Some (encode_peer p)) None.
Proof.
  intros Htarget Htoken Hdecode Hpeer Hverifies Hself Hshort Hfind.
  rewrite (onannounce_with_peer _ _ _ _ _ _ Htarget Htoken Hdecode Hpeer),
    Hverifies.
  cbn [fst]. unfold onfindpeer. rewrite Hfind. unfold Router.get.
  cbn [Router.toString snd].
  rewrite (announced_router_self _ _ _ _ _ Hself), lookup_insert_eq.
  unfold truncate. rewrite bool_decide_eq_false_2 by lia. reflexivity.
Qed.

End Frames.

(** ** Refresh tokens, and signatures *)

Section MoreRefresh.
Context `{Sodium, Messages, Sampler}.

(** A refresh that finds its slot. *)
Lemma onrefresh_found s token req r :
  refreshes s !! hex (crypto_generichash token None) = Some r →
  let s' := fst (_onrefresh s token req) in
  snd (_onrefresh s token req) = Replied None bare
  ∧ refreshes s'
    = <[hex token := r]> (delete (hex (crypto_generichash token None)) (refreshes s))
  ∧ _router (dht s')
    = (if announceSelf r
       then <[k r := forward req (refresh_record r)]> (_router (dht s))
       else _router (dht s))
  ∧ records s'
    = (if announceSelf r
       then RecordCache.remove (k r) (subarray 0 32 (refresh_record r)) (records s)
       else RecordCache.add (k r) (subarray 0 32 (refresh_record r))
              (refresh_record r) (records s)).
Proof.
  intros Hslot s'. subst s'. unfold _onrefresh. rewrite Hslot. cbn zeta.
  destruct (announceSelf r); repeat split; reflexivity.
Qed.

Lemma onrefresh_missing s token req :
  refreshes s !! hex (crypto_generichash token None) = None →
  _onrefresh s token req = (s, Dropped).
Proof. intros Hnone. unfold _onrefresh. rewrite Hnone. reflexivity. Qed.

(** A refresh token works once. After a refresh with a token that is not
    its own hash, the same token again is dropped and changes nothing; the
    token that is accepted next is one whose hash is the token just used. *)
Theorem refresh_token_is_single_use s token req r :
  refreshes s !! hex (crypto_generichash token None) = Some r →
  crypto_generichash token None ≠ token →
  let s' := fst (_onrefresh s token req) in
  (∀ again, _onrefresh s' token again = (s', Dropped))
  ∧ (∀ next again, crypto_generichash next None = token →
                   snd (_onrefresh s' next again) = Replied None bare).
Proof.
  intros Hslot Hfresh s'.
  destruct (onrefresh_found s token req r Hslot) as (_ & Hrefreshes & _).
  fold s' in Hrefreshes. split.
  - intros again. apply onrefresh_missing. rewrite Hrefreshes.
    rewrite lookup_insert_ne, lookup_delete_eq; [reflexivity|].
    intros Heq. apply Hfresh. symmetry. exact (inj hex _ _ Heq).
  - intros next again Hnext.
    apply (onrefresh_found s' next again r).
    rewrite Hnext, Hrefreshes. apply lookup_insert_eq.
Qed.

(** An announce with a refresh token [r0] and a signature that verifies,
    then a refresh with a token whose hash is [r0]: the refresh is
    answered; the LRU is as the announce left it; the Router too, but that
    the entry of a key that hashes to the target now has the sender of the
    refresh as relay. (The encoding of a peer begins with its 32-byte key,
    which is where the refresh reads the key from.) *)
Theorem refresh_replays_announce s req target token ann p r0 t again :
  req_target req = Some target →
  req_token req = Some token →
  decode decode_announce (req_value req) = Some ann →
  peer ann = Some p →
  verifies s target token ann p NS_ANNOUNCE = true →
  refresh ann = Some r0 →
  crypto_generichash t None = r0 →
  subarray 0 32 (encode_peer (truncate p)) = publicKey p →
  let s1 := fst (onannounce s req) in
  let s2 := fst (_onrefresh s1 t again) in
  snd (_onrefresh s1 t again) = Replied None bare
  ∧ records s2 = records s1
  ∧ _router (dht s2)
    = (if bool_decide (crypto_generichash (publicKey p) None = target)
       then <[hex target := forward again (encode_peer (truncate p))]>
              (_router (dht s))
       else _router (dht s)).
Proof.
  intros Htarget Htoken Hdecode Hpeer Hverifies Hrefresh Ht Hkey s1 s2.
  subst s2 s1.
  rewrite (onannounce_with_peer _ _ _ _ _ _ Htarget Htoken Hdecode Hpeer),
    Hverifies.
  cbn [fst]. set (s1 := announced s req target ann p).
  assert (refreshes s1 !! hex (crypto_generichash t None)
          = Some {| k := hex target;
                    refresh_record := encode_peer (truncate p);
                    announceSelf :=
                      bool_decide (crypto_generichash (publicKey p) None = target) |})
    as Hslot.
  { subst s1. rewrite announced_refreshes, Hrefresh, Ht. apply lookup_insert_eq. }
  destruct (onrefresh_found s1 t again _ Hslot) as (Hreply & _ & Hrouter & Hrecords).
  split; [exact Hreply|].
  rewrite Hrouter, Hrecords. cbn [announceSelf k refresh_record]. rewrite Hkey.
  subst s1. rewrite announced_records, announced_router.
  case_bool_decide.
  - rewrite RecordCache_remove_remove, insert_insert_eq. split; reflexivity.
  - rewrite RecordCache_add_add. split; reflexivity.
Qed.

(** An unannounce does not take the refresh token back. After an announce
    with a refresh token [r0], and an unannounce of the same key for the
    same target, both with signatures that verify, a refresh with a token
    whose hash is [r0] is answered and installs the record again: in the
    Router, when the key hashes to the target, and in the LRU otherwise. *)
Theorem unannounce_keeps_refresh_token
    s req target token ann p r0 req' token' unann p' t again :
  req_target req = Some target →
  req_token req = Some token →
  decode decode_announce (req_value req) = Some ann →
  peer ann = Some p →
  verifies s target token ann p NS_ANNOUNCE = true →
  refresh ann = Some r0 →
  req_target req' = Some target →
  req_token req' = Some token' →
  decode decode_announce (req_value req') = Some unann →
  peer unann = Some p' →
  publicKey p' = publicKey p →
  verifies s target token' unann p' NS_UNANNOUNCE = true →
  crypto_generichash t None = r0 →
  let record := encode_peer (truncate p) in
  let s1 := fst (onannounce s req) in
  let s2 := fst (onunannounce s1 req') in
  let s3 := fst (_onrefresh s2 t again) in
  snd (onunannounce s1 req') = Replied None bare
  ∧ RecordCache.lookup (records s2) (hex target) (publicKey p) = None
  ∧ (crypto_generichash (publicKey p) None = target →
       _router (dht s2) !! hex target = None)
  ∧ snd (_onrefresh s2 t again) = Replied None bare
  ∧ if bool_decide (crypto_generichash (publicKey p) None = target)
    then _router (dht s3) !! hex target = Some (forward again record)
    else RecordCache.lookup (records s3) (hex target) (subarray 0 32 record)
         = Some record.
Proof.
  intros Htarget Htoken Hdecode Hpeer Hverifies Hrefresh
    Htarget' Htoken' Hdecode' Hpeer' Hkey Hverifies' Ht record s1 s2 s3.
  subst s3 s2 s1.
  rewrite (onannounce_with_peer _ _ _ _ _ _ Htarget Htoken Hdecode Hpeer),
    Hverifies.
  cbn [fst]. set (s1 := announced s req target ann p).
  assert (onunannounce s1 req'
          = (unannounce s1 target (publicKey p), Replied None bare)) as Hun.
  { unfold onunannounce. rewrite Htarget', Htoken', Hdecode', Hpeer'.
    pose proof Hverifies' as Hv.
    rewrite <- (verifies_id s s1) in Hv by apply announced_id.
    unfold verifies in Hv. destruct (signature unann) as [sig|]; [|discriminate].
    rewrite (annSignable_peer _ _ _ _ _ _ Hpeer'), Hv, Hkey. reflexivity. }
  rewrite Hun. cbn [fst snd]. set (s2 := unannounce s1 target (publicKey p)).
  split; [reflexivity|].
  split; [subst s2; rewrite unannounce_records; apply RecordCache_lookup_remove|].
  split.
  { intros Hself. subst s2. rewrite unannounce_router.
    rewrite bool_decide_eq_true_2 by exact Hself. apply lookup_delete_eq. }
  assert (refreshes s2 !! hex (crypto_generichash t None)
          = Some {| k := hex target; refresh_record := record;
                    announceSelf :=
                      bool_decide (crypto_generichash (publicKey p) None = target) |})
    as Hslot.
  { subst s2. destruct (unannounce_rest s1 target (publicKey p)) as (_ & -> & _).
    subst s1. rewrite announced_refreshes, Hrefresh, Ht. apply lookup_insert_eq. }
  destruct (onrefresh_found s2 t again _ Hslot) as (Hreply & _ & Hrouter & Hrecords).
  split; [exact Hreply|].
  rewrite Hrouter, Hrecords. cbn [announceSelf k refresh_record].
  case_bool_decide.
  - apply lookup_insert_eq.
  - apply RecordCache_lookup_add.
Qed.

End MoreRefresh.

Section Signed.
Context `{Signer, Messages, Sampler}.

(** A put signed with [signMutable] under a secret key is accepted: its
    signature verifies under the public key of the secret key, and on a
    target that holds no record yet, the hash of that public key, the
    handler stores the record and replies. *)
Theorem signed_put_is_accepted s req token p value secretKey :
  let target := crypto_generichash (put_publicKey p) None in
  req_target req = Some target →
  req_token req = Some token →
  decode decode_mutablePutRequest (req_value req) = Some p →
  put_value p = Some value →
  put_publicKey p = crypto_sign_ed25519_sk_to_pk secretKey →
  put_signature p = signMutable (put_seq p) value secretKey →
  mutables s !! hex target = None →
  verifyMutable (signMutable (put_seq p) value secretKey) (put_seq p) value
    (crypto_sign_ed25519_sk_to_pk secretKey) = true
  ∧ onmutableput s req
    = (set_mutables (<[hex target := stored_put p value]> (mutables s)) s,
       Replied None None).
Proof.
  intros target Htarget Htoken Hdecode Hvalue Hkey Hsig Hnone.
  assert (verifyMutable (signMutable (put_seq p) value secretKey) (put_seq p) value
            (crypto_sign_ed25519_sk_to_pk secretKey) = true) as Hverify
    by (unfold verifyMutable, signMutable; apply sign_verify_detached).
  split; [exact Hverify|].
  unfold onmutableput. rewrite Htarget, Htoken.
  destruct (req_value req) as [v|] eqn:Hv; [|discriminate].
  rewrite Hdecode. fold target.
  rewrite bool_decide_eq_true_2 by reflexivity. cbn [negb].
  rewrite Hvalue, Hsig, Hkey, Hverify. cbn [negb].
  rewrite Hnone. rewrite <- Hsig. reflexivity.
Qed.

(** An announce signed with [signAnnounce], and an unannounce signed with
    [signUnannounce], for the target, the token and the id of the node
    that receives it, under the secret key of the peer's key, is answered
    by [onannounce] and by [onunannounce]; the signature is over the peer
    as it was sent, with all its relay addresses. *)
Theorem signed_announce_is_accepted s req target token ann p unsigned secretKey :
  req_target req = Some target →
  req_token req = Some token →
  decode decode_announce (req_value req) = Some ann →
  peer ann = Some p →
  publicKey p = crypto_sign_ed25519_sk_to_pk secretKey →
  peer unsigned = peer ann →
  refresh unsigned = refresh ann →
  (signature ann = signAnnounce target token (id (dht s)) unsigned secretKey →
   verifies s target token ann p NS_ANNOUNCE = true
   ∧ snd (onannounce s req) = Replied None bare)
  ∧ (signature ann = signUnannounce target token (id (dht s)) unsigned secretKey →
     verifies s target token ann p NS_UNANNOUNCE = true
     ∧ snd (onunannounce s req) = Replied None bare).
Proof.
  intros Htarget Htoken Hdecode Hpeer Hkey Hsamepeer Hsamerefresh.
  assert (∀ ns,
            signature ann
            = match annSignable target token (id (dht s)) unsigned ns with
              | Some signable => Some (crypto_sign_detached signable secretKey)
              | None => None
              end →
            verifies s target token ann p ns = true) as Hverifies.
  { intros ns Hsig. unfold verifies. rewrite Hsig.
    rewrite (annSignable_peer _ _ _ unsigned ns p) by congruence.
    rewrite Hsamerefresh, Hkey. apply sign_verify_detached. }
  split; intros Hsig.
  - pose proof (Hverifies NS_ANNOUNCE Hsig) as Hv. split; [exact Hv|].
    rewrite (onannounce_with_peer _ _ _ _ _ _ Htarget Htoken Hdecode Hpeer), Hv.
    reflexivity.
  - pose proof (Hverifies NS_UNANNOUNCE Hsig) as Hv. split; [exact Hv|].
    unfold onunannounce. rewrite Htarget, Htoken, Hdecode, Hpeer.
    unfold verifies in Hv. destruct (signature ann) as [sig|]; [|discriminate].
    rewrite (annSignable_peer _ _ _ _ _ _ Hpeer), Hv. reflexivity.
Qed.

End Signed.

(** * More on the connection attempt: the veto of either side *)

Section EitherVeto.
Import Connect.
Variable e : Setting.
Hypothesis vetoes : client_permits e && server_permits e = false.

Local Ltac bools :=
  repeat match goal with
         | Hb : _ && _ = true |- _ => apply andb_prop in Hb as [? ?]
         | Hb : _ || _ = true |- _ => apply orb_prop in Hb as [?|?]
         | Hb : bool_decide _ = true |- _ => apply bool_decide_eq_true_1 in Hb
         end.

Local Ltac veto_cases a l Hinv Hstep :=
  unfold vetoed_invariant in Hinv;
  destruct a as [ph c s ev n]; cbn in Hinv;
  destruct l, ph; try discriminate Hstep; bools; subst;
  try discriminate;
  unfold step in Hstep; cbn [phase client server events connections] in Hstep;
  repeat match goal with
         | x : option Puncher |- _ => destruct x as [[]|]; try discriminate
         end;
  pose proof vetoes as Hveto;
  destruct (client_permits e), (server_permits e); try discriminate Hveto;
  vm_compute in Hstep; try discriminate Hstep;
  injection Hstep as <-.

Lemma veto_invariant_step l a a' :
  vetoed_invariant a = true → step e l a = Some a' → vetoed_invariant a' = true.
Proof. intros Hinv Hstep. veto_cases a l Hinv Hstep; reflexivity. Qed.

Lemma veto_steps_left_step l a a' :
  vetoed_invariant a = true → step e l a = Some a' →
  (steps_left a' < steps_left a)%nat.
Proof. intros Hinv Hstep. veto_cases a l Hinv Hstep; cbn; lia. Qed.

Lemma veto_invariant_run ls : ∀ a a',
  vetoed_invariant a = true → run e ls a = Some a' →
  vetoed_invariant a' = true ∧ (length ls + steps_left a' ≤ steps_left a)%nat.
Proof.
  induction ls as [|l ls IH]; intros a a' Hinv Hrun; cbn in Hrun.
  - injection Hrun as <-. split; [exact Hinv|cbn; lia].
  - destruct (step e l a) as [a1|] eqn:Hstep; [|discriminate]. cbn in Hrun.
    pose proof (veto_steps_left_step _ _ _ Hinv Hstep).
    destruct (IH _ _ (veto_invariant_step _ _ _ Hinv Hstep) Hrun) as [Hinv' Hlen].
    split; [exact Hinv'|cbn; lia].
Qed.

Lemma veto_progress a :
  vetoed_invariant a = true → phase a ≠ CLOSED → ∃ l a', step e l a = Some a'.
Proof.
  intros Hinv Hopen. unfold vetoed_invariant in Hinv.
  destruct a as [ph c s ev n]. cbn in Hinv, Hopen.
  destruct ph; bools; try discriminate; try contradiction.
  - exists Start. eexists. reflexivity.
  - exists Found. eexists. reflexivity.
  - exists Relayed. eexists. reflexivity.
  - pose proof vetoes as Hveto.
    destruct c as [[]|], s as [[]|]; try discriminate;
      try (exists ClientAdvance; eexists; reflexivity);
      try (exists ServerAdvance; eexists; reflexivity);
      try (exists Abort; eexists; reflexivity).
    destruct (client_permits e) eqn:Hclient.
    + cbn in Hveto. exists ServerHook. eexists. cbn. rewrite Hveto. reflexivity.
    + exists ClientHook. eexists. cbn. rewrite Hclient. reflexivity.
Qed.

End EitherVeto.

(** When the hook of the client returns false, as in the example client and
    in the test 'client choosing to abort holepunch': in every run of the
    attempt the server's onConnection has not fired and the client's Socket
    has not opened; a run takes at most ten steps, an attempt that is not
    closed can go on, and one that reached the server and is closed has
    emitted an error with code HOLEPUNCH_ABORTED and then close, and
    nothing else. The run in which the client's hook is asked and the relay
    forwards the veto is such a run. *)
Theorem client_veto_aborts_holepunch e ls a :
  Connect.client_permits e = false →
  Connect.run e ls Connect.idle = Some a →
  Connect.connections a = 0%nat
  ∧ (Connect.open ∉ Connect.events a)
  ∧ (length ls ≤ 10)%nat
  ∧ (Connect.phase a ≠ Connect.CLOSED → ∃ l a', Connect.step e l a = Some a')
  ∧ (Connect.phase a = Connect.CLOSED → Connect.server a ≠ None →
       Connect.events a
       = [Connect.error Connect.HOLEPUNCH_ABORTED; Connect.close])
  ∧ ∃ a', Connect.run e Connect.client_veto_run Connect.idle = Some a'
          ∧ Connect.phase a' = Connect.CLOSED ∧ Connect.server a' ≠ None.
Proof.
  intros Hclient Hrun.
  assert (Connect.client_permits e && Connect.server_permits e = false) as Hveto
    by (rewrite Hclient; reflexivity).
  destruct (veto_invariant_run e Hveto ls Connect.idle a eq_refl Hrun)
    as [Hinv Hlen].
  pose proof (veto_progress e Hveto _ Hinv) as Hprogress.
  unfold Connect.vetoed_invariant in Hinv.
  apply andb_prop in Hinv as [Hconn Hinv].
  apply bool_decide_eq_true_1 in Hconn.
  split; [exact Hconn|]. split; [|split; [|split; [|split]]].
  - destruct (Connect.phase a);
      repeat match goal with
             | Hb : _ && _ = true |- _ => apply andb_prop in Hb as [? ?]
             | Hb : _ || _ = true |- _ => apply orb_prop in Hb as [?|?]
             | Hb : bool_decide _ = true |- _ => apply bool_decide_eq_true_1 in Hb
             end;
      try discriminate;
      match goal with
      | Hev : Connect.events a = _ |- _ => rewrite Hev
      end;
      intros Hin; repeat (apply elem_of_cons in Hin as [Hin|Hin]; [discriminate|]);
      apply elem_of_nil in Hin; exact Hin.
  - cbn in Hlen. lia.
  - exact Hprogress.
  - intros Hclosed Hserver. rewrite Hclosed in Hinv.
    apply orb_prop in Hinv as [Hinv|Hinv]; apply andb_prop in Hinv as [Hs Hev];
      apply bool_decide_eq_true_1 in Hs, Hev; [contradiction|exact Hev].
  - eexists. split; [|split].
    + unfold Connect.client_veto_run. cbn. rewrite Hclient. cbn. reflexivity.
    + reflexivity.
    + discriminate.
Qed.

(** ** What the store keeps *)

Section Separation.
Context `{Sodium, Messages, Sampler}.

(** The codec of a peer writes the 32-byte key first, and reads keys of 32
    bytes. *)
Hypothesis key_first :
  ∀ p, length (publicKey p) = 32%nat → subarray 0 32 (encode_peer p) = publicKey p.
Hypothesis key_length :
  ∀ v ann p, decode_announce v = Some ann → peer ann = Some p →
             length (publicKey p) = 32%nat.

Lemma separated_records s s' :
  separated s →
  refreshes s' = refreshes s →
  (∀ name publicKey record,
     RecordCache.lookup (records s') name publicKey = Some record →
     RecordCache.lookup (records s) name publicKey = Some record
     ∨ name ≠ hex (crypto_generichash publicKey None)) →
  separated s'.
Proof.
  intros [Hrecords Hrefreshes] Hsame Hfrom. split.
  - intros name pk record Hlookup.
    destruct (Hfrom _ _ _ Hlookup) as [Hold|Hnew]; [|exact Hnew].
    exact (Hrecords _ _ _ Hold).
  - rewrite Hsame. exact Hrefreshes.
Qed.

Lemma lookup_remove_from (c : RecordCache.t) name key name' key' record :
  RecordCache.lookup (RecordCache.remove name key c) name' key' = Some record →
  RecordCache.lookup c name' key' = Some record.
Proof.
  destruct (decide ((name, key) = (name', key'))) as [[= <- <-]|Hne].
  - rewrite RecordCache_lookup_remove. discriminate.
  - rewrite RecordCache_lookup_remove_ne by exact Hne. auto.
Qed.

Lemma lookup_add_from (c : RecordCache.t) name key v name' key' record :
  RecordCache.lookup (RecordCache.add name key v c) name' key' = Some record →
  RecordCache.lookup c name' key' = Some record ∨ (name' = name ∧ key' = key).
Proof.
  destruct (decide ((name, key) = (name', key'))) as [[= <- <-]|Hne].
  - auto.
  - rewrite RecordCache_lookup_add_ne by exact Hne. auto.
Qed.

Lemma separated_unannounce s target publicKey :
  separated s → separated (unannounce s target publicKey).
Proof.
  intros Hsep. apply (separated_records s); [exact Hsep| |].
  - apply unannounce_rest.
  - intros name pk record. rewrite unannounce_records. intros Hlookup.
    left. exact (lookup_remove_from _ _ _ _ _ _ Hlookup).
Qed.

Lemma separated_onrefresh s token req :
  separated s → separated (fst (_onrefresh s token req)).
Proof.
  intros Hsep.
  destruct (refreshes s !! hex (crypto_generichash token None)) as [r|] eqn:Hslot;
    [|rewrite (onrefresh_missing _ _ _ Hslot); exact Hsep].
  destruct (onrefresh_found s token req r Hslot) as (_ & Hrefreshes & _ & Hrecords).
  destruct Hsep as [Hrec Href]. split.
  - intros name pk record. rewrite Hrecords.
    destruct (announceSelf r) eqn:Hself; intros Hlookup.
    + exact (Hrec _ _ _ (lookup_remove_from _ _ _ _ _ _ Hlookup)).
    + destruct (lookup_add_from _ _ _ _ _ _ _ Hlookup) as [Hold|[-> ->]].
      * exact (Hrec _ _ _ Hold).
      * exact (Href _ r Hslot Hself).
  - intros slot r'. rewrite Hrefreshes. intros Hlookup.
    destruct (decide (hex token = slot)) as [<-|Hne].
    + rewrite lookup_insert_eq in Hlookup. injection Hlookup as <-.
      exact (Href _ r Hslot).
    + rewrite lookup_insert_ne in Hlookup by exact Hne.
      apply lookup_delete_Some in Hlookup as [_ Hlookup].
      exact (Href _ r' Hlookup).
Qed.

Lemma separated_announced s req target ann p :
  length (publicKey p) = 32%nat →
  separated s → separated (announced s req target ann p).
Proof.
  intros Hlen [Hrec Href]. split.
  - intros name pk record. rewrite announced_records.
    case_bool_decide as Hself; intros Hlookup.
    + exact (Hrec _ _ _ (lookup_remove_from _ _ _ _ _ _ Hlookup)).
    + destruct (lookup_add_from _ _ _ _ _ _ _ Hlookup) as [Hold|[-> ->]].
      * exact (Hrec _ _ _ Hold).
      * intros Heq. apply Hself. symmetry. exact (inj hex _ _ Heq).
  - intros slot r. rewrite announced_refreshes.
    destruct (refresh ann) as [r0|]; [|apply Href].
    destruct (decide (hex r0 = slot)) as [<-|Hne].
    + rewrite lookup_insert_eq. intros [= <-].
      cbn [announceSelf k refresh_record]. intros Hself. apply bool_decide_eq_false_1 in Hself.
      rewrite key_first by (rewrite truncate_publicKey; exact Hlen).
      rewrite truncate_publicKey.
      intros Heq. apply Hself. symmetry. exact (inj hex _ _ Heq).
    + rewrite lookup_insert_ne by exact Hne. apply Href.
Qed.

(** The Router and the LRU keep apart. A store that was just constructed
    holds no LRU record under the hash of the record's own key, and no
    handler, on any request, makes a store that does out of one that does
    not: a key that hashes to its target is kept in the Router only. *)
Theorem handlers_keep_router_and_lru_apart c s req :
  separated s →
  separated (fst (onrequest c s req)) ∧ ∀ node, separated (constructor node).
Proof.
  intros Hsep. split.
  - destruct c; cbn [onrequest].
    + destruct (read_handlers_change_nothing_body s req) as (-> & _). exact Hsep.
    + destruct (read_handlers_change_nothing_body s req) as (_ & -> & _). exact Hsep.
    + destruct (decode decode_announce (req_value req)) as [ann|] eqn:Hdecode.
      * destruct (peer ann) as [p|] eqn:Hpeer.
        -- destruct (onannounce_state s req ann p Hdecode Hpeer)
             as [->|(target & _ & ->)]; [exact Hsep|].
           apply separated_announced; [|exact Hsep].
           unfold decode in Hdecode. destruct (req_value req) as [v|]; [|discriminate].
           exact (key_length v ann p Hdecode Hpeer).
        -- unfold onannounce. rewrite Hdecode, Hpeer.
           destruct (req_target req); [|exact Hsep].
           destruct (req_token req); [|exact Hsep].
           destruct (annSignable _ _ _ _ _); [|exact Hsep].
           destruct (refresh ann); [|exact Hsep].
           apply separated_onrefresh. exact Hsep.
      * unfold onannounce. rewrite Hdecode.
        destruct (req_target req); [|exact Hsep].
        destruct (req_token req); exact Hsep.
    + destruct (onunannounce_state s req) as [->|(target & pk & _ & ->)];
        [exact Hsep|].
      apply separated_unannounce. exact Hsep.
    + destruct (read_handlers_change_nothing_body s req) as (_ & _ & -> & _).
      exact Hsep.
    + destruct (onmutableput_cases s req)
        as [(target & token & p & value & _ & _ & _ & _ & _ & _ & ->)|[-> _]];
        [|exact Hsep].
      apply (separated_records s); [exact Hsep|reflexivity|auto].
    + destruct (read_handlers_change_nothing_body s req) as (_ & _ & _ & ->).
      exact Hsep.
    + destruct (onimmutableput_state s req) as [->|(target & value & _ & ->)];
        [exact Hsep|].
      apply (separated_records s); [exact Hsep|reflexivity|auto].
  - intros node. split.
    + intros name pk record. unfold RecordCache.lookup, RecordCache.entries.
      cbn. rewrite lookup_empty. cbn. rewrite lookup_empty. discriminate.
    + intros slot r. cbn. rewrite lookup_empty. discriminate.
Qed.

End Separation.

(** * The theorems at work on concrete requests *)

Section Examples.
Import Toy.

Local Ltac run := vm_compute; reflexivity.

(** alice announces herself with five relay addresses on an empty store:
    the Router gets her record, with three of them. *)
Lemma onannounce_stores_verified_record_witness :
  let target := target_of (publicKey alice) in
  let ann := signed NS_ANNOUNCE target alice None in
  verifies empty target token ann alice NS_ANNOUNCE = true
  ∧ snd (onannounce empty announce_self) = Replied None bare
  ∧ Router.get (_router (dht (fst (onannounce empty announce_self))))
      (Router.Str (hex target))
    = Some (forward announce_self (encode_peer (truncate alice)))
  ∧ relayAddresses (truncate alice) = address_of_byte <$> [x01; x02; x03].
Proof.
  intros target ann.
  assert (verifies empty target token ann alice NS_ANNOUNCE = true) as Hverifies
    by run.
  split; [exact Hverifies|].
  assert (decode decode_announce (req_value announce_self) = Some ann) as Hdecode
    by run.
  destruct (onannounce_stores_verified_record empty announce_self target token
              ann alice eq_refl eq_refl Hdecode eq_refl) as [_ Hstored].
  destruct (Hstored Hverifies) as (Hreply & _ & Haddresses & _ & Hself).
  rewrite bool_decide_eq_true_2 in Hself by run.
  destruct Hself as (_ & Hget & _).
  split; [exact Hreply|]. split; [exact Hget|].
  rewrite Haddresses. reflexivity.
Defined.

(** After that announce a findPeer for her target gets her record. *)
Lemma onfindpeer_replies_router_record_witness :
  let target := target_of (publicKey alice) in
  snd (onfindpeer empty (request target None)) = Replied None None
  ∧ snd (onfindpeer (fst (onannounce empty announce_self)) (request target None))
    = Replied (Some (encode_peer (truncate alice))) None.
Proof.
  intros target.
  destruct (onfindpeer_replies_router_record empty (request target None) target
              eq_refl) as (_ & _ & Hnone & Hannounced).
  split; [apply Hnone; run|].
  apply (Hannounced announce_self token
           (signed NS_ANNOUNCE target alice None) alice); run.
Defined.

(** A lookup of the topic after alice's announce under it gets her record. *)
Lemma onlookup_replies_at_most_20_witness :
  let s := fst (onannounce empty announce_topic) in
  snd (onlookup s (request topic None))
  = Replied (Some (encode_rawArray [encode_peer (truncate alice)])) None
  ∧ (length (RecordCache.get (records s) (hex topic) 20) ≤ 20)%nat.
Proof.
  intros s.
  destruct (onlookup_replies_at_most_20 s (request topic None) topic eq_refl)
    as (Hreply & Hlength & _).
  split; [|exact Hlength].
  rewrite Hreply. run.
Defined.

(** The refresh of alice's announce under the topic, with the token whose
    hash is the one she announced with. *)
Lemma onrefresh_rotates_token_witness :
  let s := fst (onannounce empty announce_topic) in
  let r := {| k := hex topic; refresh_record := encode_peer (truncate alice);
              announceSelf := false |} in
  refreshes s !! hex (crypto_generichash refresh1 None) = Some r
  ∧ snd (_onrefresh s refresh1 refresh_topic) = Replied None bare
  ∧ refreshes (fst (_onrefresh s refresh1 refresh_topic)) !! hex refresh1 = Some r
  ∧ refreshes (fst (_onrefresh s refresh1 refresh_topic)) !! hex refresh0 = None
  ∧ _onrefresh empty refresh1 refresh_topic = (empty, Dropped).
Proof.
  intros s r.
  assert (refreshes s !! hex (crypto_generichash refresh1 None) = Some r) as Hslot
    by run.
  split; [exact Hslot|].
  destruct (onrefresh_rotates_token s refresh1 refresh_topic) as (Hknown & _ & _).
  destruct (Hknown r Hslot) as (Hreply & _ & Hbound & Hcleared & _).
  split; [exact Hreply|]. split; [exact Hbound|].
  split; [apply Hcleared; intros Heq; vm_compute in Heq; discriminate Heq|].
  destruct (onrefresh_rotates_token empty refresh1 refresh_topic)
    as (_ & Hunknown & _).
  apply Hunknown. run.
Defined.

(** alice takes her announce back. *)
Lemma onunannounce_removes_when_verified_witness :
  let target := target_of (publicKey alice) in
  let s := fst (onannounce empty announce_self) in
  verifies s target token (signed NS_UNANNOUNCE target alice None) alice
    NS_UNANNOUNCE = true
  ∧ _router (dht s) !! hex target
    = Some (forward announce_self (encode_peer (truncate alice)))
  ∧ snd (onunannounce s unannounce_self) = Replied None bare
  ∧ _router (dht (fst (onunannounce s unannounce_self))) !! hex target = None.
Proof.
  intros target s.
  split; [run|]. split; [run|].
  destruct (onunannounce_removes_when_verified s unannounce_self) as [Hacts _].
  assert (decode decode_announce (req_value unannounce_self)
          = Some (signed NS_UNANNOUNCE target alice None)) as Hdecode by run.
  specialize (Hacts target token (signed NS_UNANNOUNCE target alice None) alice
                eq_refl eq_refl Hdecode eq_refl).
  cbv zeta in Hacts.
  replace (verifies s target token (signed NS_UNANNOUNCE target alice None)
             alice NS_UNANNOUNCE) with true in Hacts by (symmetry; run).
  destruct Hacts as (Hreply & Hrouter & _).
  split; [exact Hreply|].
  rewrite Hrouter, bool_decide_eq_true_2 by run.
  apply lookup_delete_eq.
Defined.

(** The server's hook returns false: the run in which it is asked ends with
    the error and close. *)
Lemma server_veto_aborts_holepunch_witness :
  Connect.server_permits Connect.server_aborts = false
  ∧ ∃ a, Connect.run Connect.server_aborts Connect.veto_run Connect.idle = Some a
         ∧ Connect.phase a = Connect.CLOSED
         ∧ Connect.connections a = 0%nat
         ∧ Connect.events a
           = [Connect.error Connect.HOLEPUNCH_ABORTED; Connect.close].
Proof.
  split; [reflexivity|].
  eexists. split; [reflexivity|].
  destruct (server_veto_aborts_holepunch Connect.server_aborts eq_refl
              Connect.veto_run _ eq_refl) as (Hconnections & _ & _ & _ & Hclosed & _).
  split; [reflexivity|]. split; [exact Hconnections|].
  apply Hclosed; [reflexivity|discriminate].
Defined.

(** An immutable put of "b" under the hash of "a" on an empty store is
    dropped, and a get for that target gets null; the put of "a" under its
    hash is stored. *)
Lemma onimmutableput_accepts_iff_hash_matches_witness :
  let target := crypto_generichash a None in
  crypto_generichash b None ≠ target
  ∧ onimmutableput empty (immutable_put target b) = (empty, Dropped)
  ∧ snd (onimmutableget (fst (onimmutableput empty (immutable_put target b)))
           (immutable_get target)) = Replied None None
  ∧ immutables (fst (onimmutableput empty (immutable_put target a))) !! hex target
    = Some a.
Proof.
  intros target.
  assert (crypto_generichash b None ≠ target) as Hmismatch
    by (intros Heq; vm_compute in Heq; discriminate Heq).
  split; [exact Hmismatch|].
  destruct (onimmutableput_accepts_iff_hash_matches empty (immutable_put target b)
              target token b eq_refl eq_refl eq_refl) as (_ & Hdropped & _).
  destruct (Hdropped Hmismatch) as [Hdrop Hget].
  split; [exact Hdrop|].
  split; [apply (Hget (immutable_get target) eq_refl); reflexivity|].
  destruct (onimmutableput_accepts_iff_hash_matches empty (immutable_put target a)
              target token a eq_refl eq_refl eq_refl) as (Haccepted & _).
  apply Haccepted. reflexivity.
Defined.

(** C7, as it is worded, fails where the target already holds a value: "a"
    is stored under its hash; a put of "b" under that target is dropped;
    a get for the target is then answered with "a", not with null. *)
Lemma immutable_get_after_dropped_put_not_null :
  let target := crypto_generichash a None in
  let s := fst (onimmutableput empty (immutable_put target a)) in
  onimmutableput s (immutable_put target b) = (s, Dropped)
  ∧ snd (onimmutableget (fst (onimmutableput s (immutable_put target b)))
           (immutable_get target)) = Replied (Some a) None
  ∧ snd (onimmutableget (fst (onimmutableput s (immutable_put target b)))
           (immutable_get target)) ≠ Replied None None.
Proof.
  intros target s.
  assert (onimmutableput s (immutable_put target b) = (s, Dropped)) as Hdrop by run.
  split; [exact Hdrop|]. rewrite Hdrop. cbn [fst].
  rewrite (onimmutableget_reply s (immutable_get target) target eq_refl).
  cbn [snd].
  replace (immutables s !! hex target) with (Some a) by (symmetry; run).
  split; [reflexivity|discriminate].
Qed.

(** The store holds alice's record with seq 1 and value "a". Her put with
    seq 1 and value "b" is stored and answered, and so is her put with seq
    0: the record of the key then has seq 0. *)
Lemma onmutableput_conflict_not_rejected_witness :
  let target := target_of (publicKey alice) in
  let s := fst (onmutableput empty (mutable_put 1 a)) in
  mutables s !! hex target = Some (stored_put (put 1 a) a)
  ∧ decode_uint (stored_put (put 1 a) a) = Some 1%N
  ∧ onmutableput s (mutable_put 1 b)
    = (set_mutables (<[hex target := stored_put (put 1 b) b]> (mutables s)) s,
       Replied None None)
  ∧ onmutableput s (mutable_put 0 b)
    = (set_mutables (<[hex target := stored_put (put 0 b) b]> (mutables s)) s,
       Replied None None)
  ∧ decode_uint (stored_put (put 0 b) b) = Some 0%N.
Proof.
  intros target s.
  assert (mutables s !! hex target = Some (stored_put (put 1 a) a)) as Hlocal by run.
  split; [exact Hlocal|]. split; [reflexivity|].
  assert (crypto_generichash (publicKey alice) None = target) as Hhash by run.
  assert (∀ seq,
            decode decode_mutablePutRequest (req_value (mutable_put seq b))
            = Some (put seq b) →
            verifyMutable (put_signature (put seq b)) (put_seq (put seq b)) b
              (put_publicKey (put seq b)) = true →
            onmutableput s (mutable_put seq b)
            = (set_mutables
                 (<[hex target := stored_put (put seq b) b]> (mutables s)) s,
               Replied None None)) as Hstored.
  { intros seq Hdecode Hverify.
    destruct (onmutableput_conflict_not_rejected s (mutable_put seq b) target token
                (put seq b) b (stored_put (put 1 a) a)
                eq_refl eq_refl Hdecode Hhash eq_refl Hverify Hlocal)
      as [[Hput|Hthrown] _]; [exact Hput|].
    rewrite (onmutableput_on_existing s (mutable_put seq b) target token
               (put seq b) b (stored_put (put 1 a) a)
               eq_refl eq_refl Hdecode Hhash eq_refl Hverify Hlocal) in Hthrown.
    discriminate Hthrown. }
  split; [apply Hstored; run|]. split; [apply Hstored; run|]. reflexivity.
Defined.

(** The same put twice, with a codec in which [c.encode] throws on the
    stored Buffer: the first is stored and answered, the second throws and
    is not answered. *)
Lemma onmutableput_same_content_not_compared_witness :
  let target := target_of (publicKey alice) in
  let s := fst (@onmutableput sodium messages_strict empty (mutable_put 1 a)) in
  snd (@onmutableput sodium messages_strict empty (mutable_put 1 a))
  = Replied None None
  ∧ mutables s !! hex target = Some (@stored_put messages_strict (put 1 a) a)
  ∧ @onmutableput sodium messages_strict s (mutable_put 1 a) = (s, Thrown).
Proof.
  intros target s.
  assert (mutables s !! hex target = Some (@stored_put messages_strict (put 1 a) a))
    as Hlocal by run.
  split; [run|]. split; [exact Hlocal|].
  assert (@decode (@MutablePutRequest)
            (@decode_mutablePutRequest messages_strict)
            (req_value (mutable_put 1 a)) = Some (put 1 a)) as Hdecode by run.
  assert (@verifyMutable sodium messages_strict (put_signature (put 1 a))
            (put_seq (put 1 a)) a (put_publicKey (put 1 a)) = true) as Hverify
    by run.
  assert (crypto_generichash (put_publicKey (put 1 a)) None = target) as Hhash
    by run.
  destruct (@onmutableput_same_content_not_compared sodium messages_strict
              s (mutable_put 1 a) target token (put 1 a) a
              (@stored_put messages_strict (put 1 a) a) (put_signature (put 1 a))
              eq_refl eq_refl Hdecode Hhash eq_refl Hverify Hlocal eq_refl)
    as [Hthrows _].
  apply Hthrows. reflexivity.
Defined.

End Examples.

(** * The further theorems at work on concrete requests *)

Section MoreExamples.
Import Toy.

Local Ltac run := vm_compute; reflexivity.

Lemma toy_key_first (p : Peer) :
  length (publicKey p) = 32%nat → subarray 0 32 (encode_peer p) = publicKey p.
Proof.
  intros Hlen. unfold subarray. cbn [drop encode_peer messages].
  unfold write_peer. apply take_app_length'. cbn. lia.
Qed.

Lemma toy_key_length (v : Buffer) (ann : Announce) (p : Peer) :
  decode_announce v = Some ann → peer ann = Some p →
  length (publicKey p) = 32%nat.
Proof.
  cbn [decode_announce messages]. unfold parse_announce.
  destruct v as [|flags rest]; [discriminate|].
  destruct (N.testbit (Byte.to_N flags) 0); cbn zeta.
  - unfold parse_peer. destruct (drop 32 rest) as [|n rest'] eqn:Hdrop;
      [discriminate|].
    case_bool_decide; [|discriminate].
    intros [= <-]. cbn. intros [= <-]. cbn.
    rewrite length_take. apply (f_equal length) in Hdrop.
    rewrite length_drop in Hdrop. cbn in Hdrop. lia.
  - intros [= <-]. discriminate.
Qed.


(** After alice's put with seq 1, a get that asks for seq 1 gets the
    record, and a get that asks for seq 2 gets null. *)
Lemma mutable_put_then_get_witness :
  let s := fst (onmutableput empty (mutable_put 1 a)) in
  snd (onmutableput empty (mutable_put 1 a)) = Replied None None
  ∧ snd (onmutableget s (mutable_get 1))
    = Replied (Some (stored_put (put 1 a) a)) None
  ∧ snd (onmutableget s (mutable_get 2)) = Replied None None.
Proof.
  intros s.
  assert (snd (onmutableput empty (mutable_put 1 a)) = Replied None None)
    as Hreplied by run.
  assert (decode decode_mutablePutRequest (req_value (mutable_put 1 a))
          = Some (put 1 a)) as Hdecode by run.
  assert (decode_uint (stored_put (put 1 a) a) = Some (put_seq (put 1 a)))
    as Hseq by run.
  split; [exact Hreplied|]. split.
  - exact (mutable_put_then_get empty (mutable_put 1 a) (put 1 a) a (mutable_get 1)
             [x01] 1 None Hdecode eq_refl Hreplied Hseq eq_refl eq_refl eq_refl).
  - exact (mutable_put_then_get empty (mutable_put 1 a) (put 1 a) a (mutable_get 2)
             [x02] 2 None Hdecode eq_refl Hreplied Hseq eq_refl eq_refl eq_refl).
Defined.

(** "a" put under its hash, then got. *)
Lemma immutable_put_then_get_witness :
  let target := crypto_generichash a None in
  let s := fst (onimmutableput empty (immutable_put target a)) in
  onimmutableget s (immutable_get target) = (s, Replied (Some a) None)
  ∧ onimmutableput s (immutable_put target a) = (s, Replied None None).
Proof.
  intros target s.
  exact (immutable_put_then_get empty (immutable_put target a) target token a
           (immutable_get target) eq_refl eq_refl eq_refl eq_refl eq_refl).
Defined.

(** alice announces herself with five addresses, then with one: the Router
    holds her later record, and a findPeer gets it. *)
Lemma reannounce_self_replaces_witness :
  let target := target_of (publicKey alice) in
  let s1 := fst (onannounce empty announce_self) in
  let s12 := fst (onannounce s1 announce_self') in
  verifies empty target token (signed NS_ANNOUNCE target alice None) alice
    NS_ANNOUNCE = true
  ∧ verifies empty target token (signed NS_ANNOUNCE target alice' None) alice'
      NS_ANNOUNCE = true
  ∧ snd (onannounce s1 announce_self') = Replied None bare
  ∧ _router (dht s1) !! hex target
    = Some (forward announce_self (encode_peer (truncate alice)))
  ∧ _router (dht s12) !! hex target
    = Some (forward announce_self' (encode_peer alice'))
  ∧ snd (onfindpeer s12 (request target None))
    = Replied (Some (encode_peer alice')) None.
Proof.
  intros target s1 s12.
  assert (verifies empty target token (signed NS_ANNOUNCE target alice None) alice
            NS_ANNOUNCE = true) as Hv1 by run.
  assert (verifies empty target token (signed NS_ANNOUNCE target alice' None)
            alice' NS_ANNOUNCE = true) as Hv2 by run.
  assert (decode decode_announce (req_value announce_self)
          = Some (signed NS_ANNOUNCE target alice None)) as Hd1 by run.
  assert (decode decode_announce (req_value announce_self')
          = Some (signed NS_ANNOUNCE target alice' None)) as Hd2 by run.
  assert (crypto_generichash (publicKey alice') None = target) as Hself by run.
  split; [exact Hv1|]. split; [exact Hv2|].
  destruct (reannounce_self_replaces empty announce_self announce_self' target
              token token _ _ alice alice' (request target None)
              eq_refl eq_refl Hd1 eq_refl Hv1 eq_refl eq_refl Hd2 eq_refl Hv2
              eq_refl Hself eq_refl) as (Hreply & Hrouter & _ & _ & Hfind).
  split; [exact Hreply|]. split; [run|].
  split; [exact Hrouter|exact Hfind].
Defined.

(** A lookup of the topic after alice's announce finds her record. *)
Lemma announce_then_lookup_witness :
  let s := fst (onannounce empty announce_topic) in
  (length (RecordCache.values (records s) (hex topic)) ≤ 20)%nat
  ∧ ∃ found,
      snd (onlookup s (request topic None))
      = Replied (Some (encode_rawArray found)) None
      ∧ encode_peer (truncate alice) ∈ found.
Proof.
  intros s.
  assert (length (RecordCache.values (records s) (hex topic)) ≤ 20)%nat as Hroom
    by (vm_compute; lia).
  split; [exact Hroom|].
  assert (verifies empty topic token
            (signed NS_ANNOUNCE topic alice (Some refresh0)) alice NS_ANNOUNCE
          = true) as Hv by run.
  assert (decode decode_announce (req_value announce_topic)
          = Some (signed NS_ANNOUNCE topic alice (Some refresh0))) as Hd by run.
  apply (announce_then_lookup empty announce_topic topic token _ alice
           (request topic None) eq_refl eq_refl Hd eq_refl Hv eq_refl).
  rewrite bool_decide_eq_false_2
    by (intros Heq; vm_compute in Heq; discriminate Heq).
  exact Hroom.
Defined.

(** alice, announced under the topic and as herself, takes the announce of
    herself back: a lookup of the topic still gets her record. *)
Lemma unannounce_leaves_other_targets_witness :
  let s := fst (onannounce (fst (onannounce empty announce_topic)) announce_self) in
  req_target (request topic None) ≠ req_target unannounce_self
  ∧ snd (onunannounce s unannounce_self) = Replied None bare
  ∧ snd (onlookup (fst (onunannounce s unannounce_self)) (request topic None))
    = Replied (Some (encode_rawArray [encode_peer (truncate alice)])) None.
Proof.
  intros s.
  assert (req_target (request topic None) ≠ req_target unannounce_self) as Hother
    by (intros Heq; vm_compute in Heq; discriminate Heq).
  split; [exact Hother|]. split; [run|].
  destruct (unannounce_leaves_other_targets s unannounce_self (request topic None)
              Hother) as [Hlookup _].
  rewrite Hlookup. run.
Defined.

(** bob announces himself with one relay address: a findPeer gets the
    encoding of bob as he is. *)
Lemma short_address_list_stored_unchanged_witness :
  let target := target_of (publicKey bob) in
  (length (relayAddresses bob) ≤ 3)%nat
  ∧ snd (onfindpeer (fst (onannounce empty bob_self)) (request target None))
    = Replied (Some (encode_peer bob)) None.
Proof.
  intros target. split; [cbn; lia|].
  assert (decode decode_announce (req_value bob_self)
          = Some (signed NS_ANNOUNCE target bob None)) as Hd by run.
  assert (verifies empty target token (signed NS_ANNOUNCE target bob None) bob
            NS_ANNOUNCE = true) as Hv by run.
  assert (crypto_generichash (publicKey bob) None = target) as Hself by run.
  apply (short_address_list_stored_unchanged empty bob_self target token _ bob
           (request target None) eq_refl eq_refl Hd eq_refl Hv Hself);
    [cbn; lia|reflexivity].
Defined.

(** The token that refreshed alice's announce is dropped the second time. *)
Lemma refresh_token_is_single_use_witness :
  let s := fst (onannounce empty announce_topic) in
  let s' := fst (_onrefresh s refresh1 refresh_topic) in
  is_Some (refreshes s !! hex (crypto_generichash refresh1 None))
  ∧ crypto_generichash refresh1 None ≠ refresh1
  ∧ _onrefresh s' refresh1 refresh_topic = (s', Dropped).
Proof.
  intros s s'.
  assert (refreshes s !! hex (crypto_generichash refresh1 None)
          = Some {| k := hex topic; refresh_record := encode_peer (truncate alice);
                    announceSelf := false |}) as Hslot by run.
  assert (crypto_generichash refresh1 None ≠ refresh1) as Hfresh
    by (intros Heq; vm_compute in Heq; discriminate Heq).
  split; [rewrite Hslot; eexists; reflexivity|]. split; [exact Hfresh|].
  destruct (refresh_token_is_single_use s refresh1 refresh_topic _ Hslot Hfresh)
    as [Hagain _].
  apply Hagain.
Defined.

(** The refresh of alice's announce leaves the LRU as the announce left
    it. *)
Lemma refresh_replays_announce_witness :
  let s1 := fst (onannounce empty announce_topic) in
  let s2 := fst (_onrefresh s1 refresh1 refresh_topic) in
  subarray 0 32 (encode_peer (truncate alice)) = publicKey alice
  ∧ snd (_onrefresh s1 refresh1 refresh_topic) = Replied None bare
  ∧ records s2 = records s1.
Proof.
  intros s1 s2.
  assert (subarray 0 32 (encode_peer (truncate alice)) = publicKey alice) as Hkey
    by run.
  assert (verifies empty topic token
            (signed NS_ANNOUNCE topic alice (Some refresh0)) alice NS_ANNOUNCE
          = true) as Hv by run.
  assert (decode decode_announce (req_value announce_topic)
          = Some (signed NS_ANNOUNCE topic alice (Some refresh0))) as Hd by run.
  assert (crypto_generichash refresh1 None = refresh0) as Ht by run.
  split; [exact Hkey|].
  destruct (refresh_replays_announce empty announce_topic topic token _ alice
              refresh0 refresh1 refresh_topic
              eq_refl eq_refl Hd eq_refl Hv eq_refl Ht Hkey)
    as (Hreply & Hrecords & _).
  split; [exact Hreply|exact Hrecords].
Defined.

(** alice announces under the topic with a refresh token and takes the
    announce back; the refresh puts her record in the LRU again. *)
Lemma unannounce_keeps_refresh_token_witness :
  let record := encode_peer (truncate alice) in
  let s1 := fst (onannounce empty announce_topic) in
  let s2 := fst (onunannounce s1 unannounce_topic) in
  let s3 := fst (_onrefresh s2 refresh1 refresh_topic) in
  verifies empty topic token (signed NS_UNANNOUNCE topic alice None) alice
    NS_UNANNOUNCE = true
  ∧ RecordCache.lookup (records s2) (hex topic) (publicKey alice) = None
  ∧ snd (_onrefresh s2 refresh1 refresh_topic) = Replied None bare
  ∧ RecordCache.lookup (records s3) (hex topic) (subarray 0 32 record)
    = Some record.
Proof.
  intros record s1 s2 s3.
  assert (verifies empty topic token
            (signed NS_ANNOUNCE topic alice (Some refresh0)) alice NS_ANNOUNCE
          = true) as Hv by run.
  assert (decode decode_announce (req_value announce_topic)
          = Some (signed NS_ANNOUNCE topic alice (Some refresh0))) as Hd by run.
  assert (verifies empty topic token (signed NS_UNANNOUNCE topic alice None) alice
            NS_UNANNOUNCE = true) as Hv' by run.
  assert (decode decode_announce (req_value unannounce_topic)
          = Some (signed NS_UNANNOUNCE topic alice None)) as Hd' by run.
  assert (crypto_generichash refresh1 None = refresh0) as Ht by run.
  split; [exact Hv'|].
  destruct (unannounce_keeps_refresh_token empty announce_topic topic token _
              alice refresh0 unannounce_topic token _ alice refresh1 refresh_topic
              eq_refl eq_refl Hd eq_refl Hv eq_refl
              eq_refl eq_refl Hd' eq_refl eq_refl Hv' Ht)
    as (_ & Hgone & _ & Hreply & Hback).
  split; [exact Hgone|]. split; [exact Hreply|].
  rewrite bool_decide_eq_false_2 in Hback
    by (intros Heq; vm_compute in Heq; discriminate Heq).
  exact Hback.
Defined.

(** alice's put is signed as [signMutable] signs. *)
Lemma signed_put_is_accepted_witness :
  let target := target_of (publicKey alice) in
  put_signature (put 1 a) = signMutable 1 a (publicKey alice)
  ∧ onmutableput empty (mutable_put 1 a)
    = (set_mutables (<[hex target := stored_put (put 1 a) a]> (mutables empty))
         empty,
       Replied None None).
Proof.
  intros target.
  assert (put_signature (put 1 a) = signMutable 1 a (publicKey alice)) as Hsig
    by reflexivity.
  split; [exact Hsig|].
  assert (decode decode_mutablePutRequest (req_value (mutable_put 1 a))
          = Some (put 1 a)) as Hdecode by run.
  assert (req_target (mutable_put 1 a)
          = Some (crypto_generichash (put_publicKey (put 1 a)) None)) as Htarget
    by run.
  assert (mutables empty !! hex (crypto_generichash (put_publicKey (put 1 a)) None)
          = None) as Hnone by run.
  assert (put_publicKey (put 1 a)
          = crypto_sign_ed25519_sk_to_pk (publicKey alice)) as Hkey by reflexivity.
  destruct (signed_put_is_accepted empty (mutable_put 1 a) token (put 1 a) a
              (publicKey alice) Htarget eq_refl Hdecode eq_refl Hkey Hsig Hnone)
    as [_ Hput].
  rewrite Hput. f_equal.
Defined.

(** alice's announce and unannounce are signed as [signAnnounce] and
    [signUnannounce] sign. *)
Lemma signed_announce_is_accepted_witness :
  let target := target_of (publicKey alice) in
  let unsigned := {| peer := Some alice; refresh := None; signature := None |} in
  signature (signed NS_ANNOUNCE target alice None)
  = signAnnounce target token (id (dht empty)) unsigned (publicKey alice)
  ∧ snd (onannounce empty announce_self) = Replied None bare
  ∧ signature (signed NS_UNANNOUNCE target alice None)
    = signUnannounce target token (id (dht empty)) unsigned (publicKey alice)
  ∧ snd (onunannounce empty unannounce_self) = Replied None bare.
Proof.
  intros target unsigned.
  assert (signature (signed NS_ANNOUNCE target alice None)
          = signAnnounce target token (id (dht empty)) unsigned (publicKey alice))
    as Hsig by reflexivity.
  assert (signature (signed NS_UNANNOUNCE target alice None)
          = signUnannounce target token (id (dht empty)) unsigned (publicKey alice))
    as Hsig' by reflexivity.
  assert (decode decode_announce (req_value announce_self)
          = Some (signed NS_ANNOUNCE target alice None)) as Hd by run.
  assert (decode decode_announce (req_value unannounce_self)
          = Some (signed NS_UNANNOUNCE target alice None)) as Hd' by run.
  assert (publicKey alice = crypto_sign_ed25519_sk_to_pk (publicKey alice))
    as Hkey by reflexivity.
  split; [exact Hsig|].
  destruct (signed_announce_is_accepted empty announce_self target token _ alice
              unsigned (publicKey alice) eq_refl eq_refl Hd eq_refl Hkey
              eq_refl eq_refl) as [Hannounce _].
  split; [apply Hannounce; exact Hsig|].
  split; [exact Hsig'|].
  destruct (signed_announce_is_accepted empty unannounce_self target token _ alice
              unsigned (publicKey alice) eq_refl eq_refl Hd' eq_refl Hkey
              eq_refl eq_refl) as [_ Hunannounce].
  apply Hunannounce. exact Hsig'.
Defined.

(** The client's hook returns false: the run in which it is asked ends with
    the error and close. *)
Lemma client_veto_aborts_holepunch_witness :
  Connect.client_permits Connect.client_aborts = false
  ∧ ∃ a, Connect.run Connect.client_aborts Connect.client_veto_run Connect.idle
         = Some a
         ∧ Connect.phase a = Connect.CLOSED
         ∧ Connect.connections a = 0%nat
         ∧ Connect.events a
           = [Connect.error Connect.HOLEPUNCH_ABORTED; Connect.close].
Proof.
  split; [reflexivity|].
  eexists. split; [reflexivity|].
  destruct (client_veto_aborts_holepunch Connect.client_aborts
              Connect.client_veto_run _ eq_refl eq_refl)
    as (Hconnections & _ & _ & _ & Hclosed & _).
  split; [reflexivity|]. split; [exact Hconnections|].
  apply Hclosed; [reflexivity|discriminate].
Defined.

(** The empty store keeps the Router and the LRU apart, and so does the
    store after alice's announce under the topic. *)
Lemma handlers_keep_router_and_lru_apart_witness :
  separated empty ∧ separated (fst (onrequest ANNOUNCE empty announce_topic)).
Proof.
  assert (separated empty) as Hempty.
  { split.
    - intros name pk record. unfold RecordCache.lookup, RecordCache.entries.
      cbn. rewrite lookup_empty. cbn. rewrite lookup_empty. discriminate.
    - intros slot r. cbn. rewrite lookup_empty. discriminate. }
  split; [exact Hempty|].
  exact (proj1 (handlers_keep_router_and_lru_apart toy_key_first toy_key_length
                  ANNOUNCE empty announce_topic Hempty)).
Defined.

End MoreExamples.
